(** * Dead-leaves chart generator: a shallow embedding of
      [rstor/synthetic_data/dead_leaves.py]

    Numeric conventions of the embedding.
    - Python and numpy floating-point numbers are idealised as real numbers
      ([R]); rounding errors, infinities and NaN are outside the model.
    - Python integers are [Z]; the extents of the pixel buffers are [nat].
    - The numpy [Generator] is an explicit state threaded through the call;
      an exception is a [Raise] result that still carries the generator state
      reached when it was raised. *)

From Stdlib Require Import Reals Lra Lia ZArith List Bool.
Import ListNotations.

Set Implicit Arguments.

(** ** Exceptions and results *)

Inductive exn : Type :=
| ValueError          (* numpy argument checks *)
| ZeroDivisionError   (* Python scalar division and power *)
| NonFinite           (* an IEEE infinity or NaN would arise *)
| CvError.            (* OpenCV argument assertion *)

Inductive result (A : Type) : Type :=
| Ok (a : A)
| Raise (e : exn).

Arguments Ok {A} a.
Arguments Raise {A} e.

Definition rbind {A B} (r : result A) (k : A -> result B) : result B :=
  match r with
  | Ok a => k a
  | Raise e => Raise e
  end.

Fixpoint rmapM {A B} (f : A -> result B) (l : list A) : result (list B) :=
  match l with
  | [] => Ok []
  | a :: l' => rbind (f a) (fun b => rbind (rmapM f l') (fun bs => Ok (b :: bs)))
  end.

(** ** Scalar arithmetic *)

Module Num.
Local Open Scope R_scope.

(** Python [x ** y] on non-negative scalars: a zero base with a negative
    exponent raises; [0 ** 0 = 1]. The entry point replaces negative radius
    bounds by defaults, so the base is never negative there. *)
Definition py_pow (x y : R) : result R :=
  if Req_dec_T x 0 then
    if Rlt_dec y 0 then Raise ZeroDivisionError
    else if Req_dec_T y 0 then Ok 1 else Ok 0
  else Ok (Rpower x y).

(** Python [x / y] on scalars. *)
Definition py_div (x y : R) : result R :=
  if Req_dec_T y 0 then Raise ZeroDivisionError else Ok (x / y).

(** numpy [u ** e] on one array element. numpy never raises here; the two
    cases that give [inf] or [nan] in IEEE arithmetic are reported as
    [NonFinite]. *)
Definition np_power (u e : R) : result R :=
  if Rlt_dec u 0 then Raise NonFinite
  else if Req_dec_T u 0 then
    if Rlt_dec e 0 then Raise NonFinite
    else if Req_dec_T e 0 then Ok 1 else Ok 0
  else Ok (Rpower u e).

(** [ndarray.round().astype(int)]: round half to even. *)
Definition np_round (x : R) : Z :=
  let f := Int_part x in
  let d := x - IZR f in
  if Rlt_dec d (1 / 2) then f
  else if Rlt_dec (1 / 2) d then (f + 1)%Z
  else if Z.even f then f else (f + 1)%Z.

(** [ndarray.clip(0, 1)] on one element. *)
Definition clip01 (x : R) : R :=
  if Rlt_dec x 0 then 0 else if Rlt_dec 1 x then 1 else x.

End Num.

(** ** The random generator *)

(** The interface of [numpy.random.Generator] that the chart generator uses:
    one bounded integer variate and one unit-interval variate per draw. *)
Record BitGenerator : Type := {
  rng : Type;
  default_rng : Z -> rng;
  next_bounded : Z -> rng -> Z * rng;
  next_double : rng -> R * rng;
  next_bounded_range :
    forall n st, (0 < n)%Z -> (0 <= fst (next_bounded n st) < n)%Z;
  next_double_range :
    forall st, (0 <= fst (next_double st) < 1)%R
}.

(** [np.random.SeedSequence(seed)]: the given seed, or fresh entropy of the
    operating system when the seed is [None]. numpy takes a non-negative
    integer as seed and rejects a negative one before any generator exists;
    the results below are about seeds that it accepts. *)
Definition SeedSequence (seed : option Z) (os_entropy : Z) : Z :=
  match seed with
  | Some s => s
  | None => os_entropy
  end.

Section Sampling.
Variable G : BitGenerator.

(** Computations that draw from the generator and may raise. *)
Definition M (A : Type) : Type := rng G -> result A * rng G.

Definition ret {A} (a : A) : M A := fun st => (Ok a, st).

Definition bind {A B} (m : M A) (k : A -> M B) : M B :=
  fun st =>
    match m st with
    | (Ok a, st') => k a st'
    | (Raise e, st') => (Raise e, st')
    end.

Definition lift {A} (r : result A) : M A := fun st => (r, st).

Notation "x <- m ;; k" := (bind m (fun x => k))
  (at level 61, m at next level, right associativity).

(** [n] successive draws. *)
Fixpoint draws {A} (n : nat) (draw : rng G -> A * rng G) (st : rng G)
  : list A * rng G :=
  match n with
  | O => ([], st)
  | S n' =>
      let (a, st1) := draw st in
      let (l, st2) := draws n' draw st1 in
      (a :: l, st2)
  end.

(** [rng.integers(low, high, size=size)]: a request for no variate returns
    the empty array before any argument is checked; otherwise an empty
    range [high <= low] raises [ValueError]. *)
Definition integers (low high size : Z) : M (list Z) :=
  fun st =>
    if (size =? 0)%Z then (Ok [], st)
    else if (high <=? low)%Z then (Raise ValueError, st)
    else if (size <? 0)%Z then (Raise ValueError, st)
    else
      let (l, st') :=
        draws (Z.to_nat size)
              (fun s => let (k, s') := next_bounded G (high - low) s in
                        ((low + k)%Z, s')) st in
      (Ok l, st').

(** [rng.integers(low, high)] without a size: one scalar. *)
Definition integers1 (low high : Z) : M Z :=
  fun st =>
    if (high <=? low)%Z then (Raise ValueError, st)
    else let (k, st') := next_bounded G (high - low) st in
         (Ok (low + k)%Z, st').

(** [rng.uniform(low, high, size=size)]. [Generator.uniform] (unlike the
    legacy [RandomState.uniform]) checks its scalar arguments before any
    draw: its documentation requires that [high - low] be non-negative and
    the call raises [ValueError] otherwise, whatever the size. Each variate
    is [low + (high - low) * t] for a unit-interval [t]. *)
Definition uniform (low high : R) (size : Z) : M (list R) :=
  fun st =>
    if Rlt_dec (high - low) 0 then (Raise ValueError, st)
    else if (size <? 0)%Z then (Raise ValueError, st)
    else
      let (l, st') :=
        draws (Z.to_nat size)
              (fun s => let (t, s') := next_double G s in
                        ((low + (high - low) * t)%R, s')) st in
      (Ok l, st').

(** Lines 55-62: radii of a truncated power law by inverse transform. *)
Definition sample_radius (number_of_circles : Z)
           (radius_min radius_max radius_alpha : R) : M (list Z) :=
  low <- lift (Num.py_pow radius_max (1 - radius_alpha)) ;;
  high <- lift (Num.py_pow radius_min (1 - radius_alpha)) ;;
  radius <- uniform low high number_of_circles ;;
  e <- lift (Num.py_div (-1) (radius_alpha - 1)) ;;
  radius <- lift (rmapM (fun u => Num.np_power u e) radius) ;;
  ret (map Num.np_round radius).

End Sampling.

(** ** Pixel buffers *)

(** A dense [h] x [w] array, stored by rows. *)
Definition image (P : Type) : Type := list (list P).

Definition tab {P} (h w : nat) (f : nat -> nat -> P) : image P :=
  map (fun y => map (fun x => f y x) (seq 0 w)) (seq 0 h).

Definition pix {P} (d : P) (img : image P) (y x : nat) : P :=
  nth x (nth y img []) d.

Definition rgb : Type := (R * R * R)%type.

Definition rgb0 : rgb := (0, 0, 0)%R.

Definition rgb_add (a b : rgb) : rgb :=
  let '(a1, a2, a3) := a in
  let '(b1, b2, b3) := b in
  (a1 + b1, a2 + b2, a3 + b3)%R.

(** A 3-channel pixel times a 1-channel pixel, broadcast over channels. *)
Definition rgb_scale (a : rgb) (m : R) : rgb :=
  let '(a1, a2, a3) := a in (a1 * m, a2 * m, a3 * m)%R.

Definition in01 (x : R) : Prop := (0 <= x <= 1)%R.

Definition rgb_in01 (c : rgb) : Prop :=
  let '(c1, c2, c3) := c in in01 c1 /\ in01 c2 /\ in01 c3.

(** ** Circles *)

Record circle : Type := {
  center_x : Z;
  center_y : Z;
  radius : Z;
  color : rgb
}.

(** The footprint of [cv2.circle] with thickness [-1]. OpenCV's rasteriser
    is external; its footprint is taken as the disk of the specification
    (section 4.4): the pixels at squared distance at most [r * r] from the
    centre (column [x], row [y]). The occlusion results below only use that
    the chart, the scratch buffer and the mask are stamped with the same
    footprint. *)
Definition in_disk (cx cy r : Z) (x y : nat) : bool :=
  ((Z.of_nat x - cx) * (Z.of_nat x - cx)
   + (Z.of_nat y - cy) * (Z.of_nat y - cy) <=? r * r)%Z.

Definition covers (c : circle) (x y : nat) : bool :=
  in_disk (center_x c) (center_y c) (radius c) x y.

(** The four arrays indexed by the loops, paired up element by element. *)
Fixpoint zip_circles (cx cy r : list Z) (col : list rgb) : list circle :=
  match cx, cy, r, col with
  | x :: cx', y :: cy', k :: r', c :: col' =>
      {| center_x := x; center_y := y; radius := k; color := c |}
        :: zip_circles cx' cy' r' col'
  | _, _, _, _ => []
  end.

(** ** The compositor (lines 71-88) *)

Section Compositor.
Variables h w : nat.

Definition zeros : image rgb := tab h w (fun _ _ => rgb0).
Definition ones_mask : image R := tab h w (fun _ _ => 1%R).
Definition full (c : rgb) : image rgb := tab h w (fun _ _ => c).

(** [cv2.circle(img, (cx, cy), r, col, -1)]; OpenCV asserts [r >= 0]. The
    centre and the radius are taken to fit the C [int] of its interface. *)
Definition cv2_circle {P} (d : P) (img : image P) (c : circle) (col : P)
  : result (image P) :=
  if (radius c <? 0)%Z then Raise CvError
  else Ok (tab h w (fun y x => if covers c x y then col else pix d img y x)).

(** [chart + layer * mask] *)
Definition add_masked (chart layer : image rgb) (mask : image R) : image rgb :=
  tab h w (fun y x =>
             rgb_add (pix rgb0 chart y x)
                     (rgb_scale (pix rgb0 layer y x) (pix 0%R mask y x))).

(** [np.any(mask)] *)
Definition np_any (mask : image R) : bool :=
  existsb (existsb (fun m => if Req_dec_T m 0 then false else true)) mask.

(** Lines 75-81. [early_exit = true] is the loop of the source;
    [early_exit = false] is the same loop with the check of lines 80-81
    removed. The scratch [buffer] is never cleared. *)
Fixpoint reverse_loop (early_exit : bool) (cs : list circle)
         (chart buffer : image rgb) (mask : image R)
  : result (image rgb * image R) :=
  match cs with
  | [] => Ok (chart, mask)
  | c :: rest =>
      rbind (cv2_circle rgb0 buffer c (color c)) (fun buffer' =>
      let chart' := add_masked chart buffer' mask in
      rbind (cv2_circle 0%R mask c 0%R) (fun mask' =>
      if early_exit && negb (np_any mask') then Ok (chart', mask')
      else reverse_loop early_exit rest chart' buffer' mask'))
  end.

(** Lines 86-88. *)
Fixpoint forward_loop (cs : list circle) (chart : image rgb)
  : result (image rgb) :=
  match cs with
  | [] => Ok chart
  | c :: rest =>
      rbind (cv2_circle rgb0 chart c (color c)) (forward_loop rest)
  end.

Definition composite_with (early_exit : bool) (background_color : rgb)
           (reverse : bool) (cs : list circle) : result (image rgb) :=
  if reverse then
    rbind (reverse_loop early_exit cs zeros zeros ones_mask) (fun '(chart, mask) =>
    Ok (add_masked chart (full background_color) mask))
  else forward_loop cs (full background_color).

Definition composite : rgb -> bool -> list circle -> result (image rgb) :=
  composite_with true.

End Compositor.

(** ** The finalizer (lines 90-93) *)

Definition rgb_clip (p : rgb) : rgb :=
  let '(c1, c2, c3) := p in (Num.clip01 c1, Num.clip01 c2, Num.clip01 c3).

(** The channels kept for one pixel: all three, or the first one in gray
    mode ([chart[:, :, 0, None]]). *)
Definition channels (colored : bool) (p : rgb) : list R :=
  let '(c1, c2, c3) := p in if colored then [c1; c2; c3] else [c1].

Definition finalize (colored : bool) (chart : image rgb) : image (list R) :=
  map (map (fun p => channels colored (rgb_clip p))) chart.

(** Lines 71-93 on an ordered circle list. *)
Definition chart_of_circles (h w : nat) (background_color : rgb)
           (colored reverse : bool) (cs : list circle)
  : result (image (list R)) :=
  rbind (composite h w background_color reverse cs)
        (fun chart => Ok (finalize colored chart)).

(** ** The colour sampler *)

(** Modelled from the spec: [rstor/synthetic_data/color_sampler.py] is not
    among the sources. Its function [sample_rgb_values] takes a count and a
    seed and returns that many RGB triples in the unit interval. *)
Record ColorSampler : Type := {
  sample_rgb_values : Z -> Z -> list rgb;
  sample_rgb_values_length :
    forall n seed, length (sample_rgb_values n seed) = Z.to_nat n;
  sample_rgb_values_range :
    forall n seed c, In c (sample_rgb_values n seed) -> rgb_in01 c
}.

(** ** The entry point *)

Section Generator.
Variable G : BitGenerator.
Variable S : ColorSampler.

Notation "x <- m ;; k" := (bind m (fun x => k))
  (at level 61, m at next level, right associativity).

(** Lines 42-47: defaults of the optional arguments. *)
Definition default_count (size : Z * Z) (number_of_circles : Z) : Z :=
  if (number_of_circles <? 0)%Z then (30 * Z.max (fst size) (snd size))%Z
  else number_of_circles.

Definition default_radius (r d : R) : R :=
  if Rlt_dec r 0 then d else r.

(** Lines 50-62: centres and radii. *)
Definition sample_geometry (size : Z * Z) (n : Z)
           (radius_min radius_max radius_alpha : R)
  : M G (list Z * list Z * list Z) :=
  cx <- integers G 0 (snd size) n ;;
  cy <- integers G 0 (fst size) n ;;
  r <- sample_radius G n radius_min radius_max radius_alpha ;;
  ret G (cx, cy, r).

(** Lines 65-69: colours. *)
Definition sample_color (colored : bool) (n : Z) : M G (list rgb) :=
  if colored then
    sub_seed <- integers1 G 0 (10 ^ 10) ;;
    ret G (sample_rgb_values S n sub_seed)
  else
    gray <- uniform G (25 / 100) (75 / 100) n ;;
    ret G (map (fun v => (v, v, v)) gray).

(** Lines 42-69: the ordered circle list. *)
Definition sample_circles (size : Z * Z) (number_of_circles : Z)
           (colored : bool) (radius_min radius_max radius_alpha : R)
  : M G (list Z * list Z * list Z * list rgb) :=
  let n := default_count size number_of_circles in
  let rmin := default_radius radius_min 1 in
  let rmax := default_radius radius_max 2000 in
  g <- sample_geometry size n rmin rmax radius_alpha ;;
  col <- sample_color colored n ;;
  ret G (g, col).

(** The circle list that the loops of lines 75 and 86 walk through. *)
Definition circles_of (a : list Z * list Z * list Z * list rgb) : list circle :=
  let '(cx, cy, r, col) := a in zip_circles cx cy r col.

(** Lines 71-93 on the sampled arrays. *)
Definition render (size : Z * Z) (background_color : rgb)
           (colored reverse : bool)
           (a : list Z * list Z * list Z * list rgb)
  : result (image (list R)) :=
  chart_of_circles (Z.to_nat (fst size)) (Z.to_nat (snd size))
                   background_color colored reverse (circles_of a).

(** [dead_leaves_chart]; [os_entropy] stands for the entropy that
    [SeedSequence(None)] reads from the operating system. The second
    component is the state of [rng] when the call ends. *)
Definition dead_leaves_chart (size : Z * Z) (number_of_circles : Z)
           (background_color : rgb) (colored : bool)
           (radius_min radius_max radius_alpha : R)
           (seed : option Z) (reverse : bool) (os_entropy : Z)
  : result (image (list R)) * rng G :=
  (a <- sample_circles size number_of_circles colored
                       radius_min radius_max radius_alpha ;;
   lift G (render size background_color colored reverse a))
    (default_rng G (SeedSequence seed os_entropy)).

End Generator.

(** ** Vocabulary of the properties *)

(** The first circle in list order whose disk covers pixel (x, y). *)
Definition first_cover (cs : list circle) (x y : nat) : option circle :=
  find (fun c => covers c x y) cs.

(** The last circle in list order whose disk covers pixel (x, y). *)
Definition last_cover (cs : list circle) (x y : nat) : option circle :=
  find (fun c => covers c x y) (rev cs).

(** Circle descriptors have a non-negative radius. *)
Definition wf_circles (cs : list circle) : Prop :=
  Forall (fun c => (0 <= radius c)%Z) cs.

(** The canvas of the compositor, pixel by pixel. *)
Definition expected_pixel (background_color : rgb) (reverse : bool)
           (cs : list circle) (y x : nat) : rgb :=
  match (if reverse then first_cover cs x y else last_cover cs x y) with
  | Some c => color c
  | None => background_color
  end.

(** State of the reverse loop at one pixel: either the pixel is decided
    (mask 0), or it is untouched (mask 1, chart and scratch buffer zero). *)
Definition pixel_inv (h w : nat) (f b : nat -> nat -> rgb)
           (m : nat -> nat -> R) : Prop :=
  forall y x, (y < h)%nat -> (x < w)%nat ->
    m y x = 0%R \/ (m y x = 1%R /\ f y x = rgb0 /\ b y x = rgb0).

(** The variates of one [uniform] call, as a function of the state. *)
Definition uniform_variates (G : BitGenerator) (low high : R) (size : Z)
           (st : rng G)
  : list R * rng G :=
  draws G (Z.to_nat size)
        (fun s => let (t, s') := next_double G s in
                  ((low + (high - low) * t)%R, s')) st.




(** The exceptions raised by the argument checks of the run time. *)
Definition runtime_error (e : exn) : Prop :=
  e = ValueError \/ e = ZeroDivisionError.


(** ** Concrete collaborators *)

(** A generator whose state counts the variates drawn; every variate is 0. *)
Definition counting_generator : BitGenerator :=
  {| rng := nat;
     default_rng := fun _ => 0%nat;
     next_bounded := fun _ st => (0%Z, Datatypes.S st);
     next_double := fun st => (0%R, Datatypes.S st);
     next_bounded_range := fun n st H => conj (Z.le_refl 0) H;
     next_double_range := fun st => conj (Rle_refl 0) Rlt_0_1 |}.

Definition red : rgb := (1, 0, 0)%R.

Lemma red_in01 : rgb_in01 red.
Proof. unfold red, rgb_in01, in01. repeat split; lra. Qed.

Lemma repeat_red_range (n seed : Z) (c : rgb) :
  In c (repeat red (Z.to_nat n)) -> rgb_in01 c.
Proof. intros Hin. apply repeat_spec in Hin. subst. exact red_in01. Qed.

(** A colour sampler that returns red only. *)
Definition red_sampler : ColorSampler :=
  {| sample_rgb_values := fun n _ => repeat red (Z.to_nat n);
     sample_rgb_values_length := fun n _ => repeat_length red (Z.to_nat n);
     sample_rgb_values_range := repeat_red_range |}.

(** The default background colour, mid-gray. *)
Definition gray : rgb := (1 / 2, 1 / 2, 1 / 2)%R.

(** Colours and circles of the examples. *)
Definition blue : rgb := (0, 0, 1)%R.

(** The first circle covers the whole 2 x 2 canvas, so the early exit is
    taken before the second circle. *)
Definition two_circles : list circle :=
  [ {| center_x := 0; center_y := 0; radius := 5; color := red |};
    {| center_x := 1; center_y := 1; radius := 0; color := blue |} ].

(** * Properties *)


(** ** Tabulated buffers *)

Lemma tab_length {P} (h w : nat) (f : nat -> nat -> P) :
  length (tab h w f) = h.
Proof. unfold tab. now rewrite length_map, length_seq. Qed.

Lemma tab_row_length {P} (h w : nat) (f : nat -> nat -> P) (row : list P) :
  In row (tab h w f) -> length row = w.
Proof.
  unfold tab. intros Hin. apply in_map_iff in Hin.
  destruct Hin as [y [<- _]]. now rewrite length_map, length_seq.
Qed.

Lemma pix_tab {P} (d : P) (h w : nat) (f : nat -> nat -> P) (y x : nat) :
  (y < h)%nat -> (x < w)%nat -> pix d (tab h w f) y x = f y x.
Proof.
  intros Hy Hx. unfold pix, tab.
  rewrite (nth_indep _ [] (map (fun x0 => f 0%nat x0) (seq 0 w)))
    by now rewrite length_map, length_seq.
  rewrite (map_nth (fun y0 => map (fun x0 => f y0 x0) (seq 0 w)) (seq 0 h) 0%nat y).
  rewrite seq_nth by assumption. simpl.
  rewrite (nth_indep _ d (f y 0%nat)) by now rewrite length_map, length_seq.
  rewrite (map_nth (fun x0 => f y x0) (seq 0 w) 0%nat x).
  now rewrite seq_nth.
Qed.

Lemma tab_ext {P} (h w : nat) (f g : nat -> nat -> P) :
  (forall y x, (y < h)%nat -> (x < w)%nat -> f y x = g y x) ->
  tab h w f = tab h w g.
Proof.
  intros Hfg. unfold tab. apply map_ext_in. intros y Hy.
  apply in_seq in Hy. apply map_ext_in. intros x Hx. apply in_seq in Hx.
  apply Hfg; lia.
Qed.

Lemma tab_In {P} (h w : nat) (f : nat -> nat -> P) (row : list P) (p : P) :
  In row (tab h w f) -> In p row ->
  exists y x, (y < h)%nat /\ (x < w)%nat /\ p = f y x.
Proof.
  unfold tab. intros Hrow Hp. apply in_map_iff in Hrow.
  destruct Hrow as [y [<- Hy]]. apply in_map_iff in Hp.
  destruct Hp as [x [<- Hx]]. apply in_seq in Hy. apply in_seq in Hx.
  exists y, x. repeat split; lia.
Qed.

Lemma In_tab {P} (h w : nat) (f : nat -> nat -> P) (y x : nat) :
  (y < h)%nat -> (x < w)%nat ->
  exists row, In row (tab h w f) /\ In (f y x) row.
Proof.
  intros Hy Hx. exists (map (fun x0 => f y x0) (seq 0 w)). split.
  - unfold tab. apply in_map_iff. exists y. split; [reflexivity|].
    apply in_seq. lia.
  - apply in_map_iff. exists x. split; [reflexivity|]. apply in_seq. lia.
Qed.

Section CompositorFacts.
Variables h w : nat.

Lemma cv2_circle_tab {P} (d : P) (b : nat -> nat -> P) (c : circle) (col : P) :
  (0 <= radius c)%Z ->
  cv2_circle h w d (tab h w b) c col
  = Ok (tab h w (fun y x => if covers c x y then col else b y x)).
Proof.
  intros Hr. unfold cv2_circle.
  destruct (Z.ltb_spec (radius c) 0) as [Hneg|_]; [lia|].
  f_equal. apply tab_ext. intros y x Hy Hx. now rewrite pix_tab.
Qed.

Lemma add_masked_tab (f b : nat -> nat -> rgb) (m : nat -> nat -> R) :
  add_masked h w (tab h w f) (tab h w b) (tab h w m)
  = tab h w (fun y x => rgb_add (f y x) (rgb_scale (b y x) (m y x))).
Proof.
  unfold add_masked. apply tab_ext. intros y x Hy Hx.
  now rewrite !pix_tab.
Qed.

Lemma np_any_tab_false (m : nat -> nat -> R) :
  np_any (tab h w m) = false ->
  forall y x, (y < h)%nat -> (x < w)%nat -> m y x = 0%R.
Proof.
  intros Hany y x Hy Hx. unfold np_any in Hany.
  destruct (In_tab m Hy Hx) as [row [Hrow Hp]].
  destruct (Req_dec_T (m y x) 0) as [Hz|Hnz]; [assumption|].
  assert (Hex : existsb (existsb (fun v => if Req_dec_T v 0 then false else true))
                        (tab h w m) = true).
  { apply existsb_exists. exists row. split; [assumption|].
    apply existsb_exists. exists (m y x). split; [assumption|].
    destruct (Req_dec_T (m y x) 0); [contradiction|reflexivity]. }
  congruence.
Qed.

End CompositorFacts.

(** ** Occlusion *)

Lemma rgb_add_scale_0 (a b : rgb) : rgb_add a (rgb_scale b 0) = a.
Proof.
  destruct a as [[a1 a2] a3], b as [[b1 b2] b3]. simpl.
  repeat f_equal; ring.
Qed.

Lemma rgb_add_0_scale_1 (c : rgb) : rgb_add rgb0 (rgb_scale c 1) = c.
Proof.
  destruct c as [[c1 c2] c3]. simpl. repeat f_equal; ring.
Qed.

Lemma last_cover_cons (c : circle) (cs : list circle) (x y : nat) :
  last_cover (c :: cs) x y
  = match last_cover cs x y with
    | Some c' => Some c'
    | None => if covers c x y then Some c else None
    end.
Proof.
  unfold last_cover. simpl rev.
  induction (rev cs) as [|a l IH]; simpl.
  - reflexivity.
  - destruct (covers a x y); [reflexivity|apply IH].
Qed.

Section Occlusion.
Variables h w : nat.

Lemma reverse_loop_pixels (early_exit : bool) (cs : list circle) :
  wf_circles cs ->
  forall (f b : nat -> nat -> rgb) (m : nat -> nat -> R),
    pixel_inv h w f b m ->
    exists f' m',
      reverse_loop h w early_exit cs (tab h w f) (tab h w b) (tab h w m)
      = Ok (tab h w f', tab h w m')
      /\ forall y x, (y < h)%nat -> (x < w)%nat ->
           (m y x = 0%R -> f' y x = f y x /\ m' y x = 0%R)
           /\ (m y x = 1%R ->
               match first_cover cs x y with
               | Some c => f' y x = color c /\ m' y x = 0%R
               | None => f' y x = rgb0 /\ m' y x = 1%R
               end).
Proof.
  induction cs as [|c rest IH]; intros Hwf f b m Hinv.
  - exists f, m. split; [reflexivity|]. intros y x Hy Hx. split.
    + intros Hm. now split.
    + intros Hm. simpl. destruct (Hinv y x Hy Hx) as [H0|[_ [Hf _]]].
      * rewrite H0 in Hm. lra.
      * now split.
  - inversion Hwf as [|c' rest' Hr Hwf']; subst.
    simpl reverse_loop.
    rewrite (cv2_circle_tab h w rgb0 b c (color c) Hr). simpl rbind.
    rewrite add_masked_tab.
    rewrite (cv2_circle_tab h w 0%R m c 0%R Hr). simpl rbind.
    set (b1 := fun y x => if covers c x y then color c else b y x).
    set (f1 := fun y x => rgb_add (f y x) (rgb_scale (b1 y x) (m y x))).
    set (m1 := fun y x => if covers c x y then 0%R else m y x).
    assert (Hstep : forall y x, (y < h)%nat -> (x < w)%nat ->
              (m y x = 0%R -> f1 y x = f y x /\ m1 y x = 0%R)
              /\ (m y x = 1%R ->
                  if covers c x y then f1 y x = color c /\ m1 y x = 0%R
                  else f1 y x = rgb0 /\ m1 y x = 1%R /\ b1 y x = rgb0)).
    { intros y x Hy Hx. unfold f1, m1, b1. split; intros Hm.
      - rewrite Hm, rgb_add_scale_0. split; [reflexivity|].
        now destruct (covers c x y).
      - destruct (Hinv y x Hy Hx) as [H0|[_ [Hf Hb]]]; [rewrite H0 in Hm; lra|].
        rewrite Hm, Hf. destruct (covers c x y).
        + now rewrite rgb_add_0_scale_1.
        + rewrite Hb, rgb_add_0_scale_1. now repeat split. }
    destruct (early_exit && negb (np_any (tab h w m1))) eqn:Hexit.
    + apply andb_prop in Hexit. destruct Hexit as [_ Hany].
      apply negb_true_iff in Hany.
      pose proof (np_any_tab_false m1 Hany) as Hall.
      exists f1, m1. split; [reflexivity|]. intros y x Hy Hx.
      destruct (Hstep y x Hy Hx) as [S0 S1]. split; [exact S0|].
      intros Hm. specialize (S1 Hm). unfold first_cover. simpl.
      destruct (covers c x y); [exact S1|].
      destruct S1 as [_ [Hm1 _]]. rewrite (Hall y x Hy Hx) in Hm1. lra.
    + assert (Hinv1 : pixel_inv h w f1 b1 m1).
      { intros y x Hy Hx. destruct (Hstep y x Hy Hx) as [S0 S1].
        destruct (Hinv y x Hy Hx) as [H0|[H1 _]].
        - left. now apply S0.
        - specialize (S1 H1). destruct (covers c x y).
          + left. apply S1.
          + right. destruct S1 as [A [B C]]. now repeat split. }
      destruct (IH Hwf' f1 b1 m1 Hinv1) as [f' [m' [Hrun Hpix]]].
      exists f', m'. split; [exact Hrun|]. intros y x Hy Hx.
      destruct (Hstep y x Hy Hx) as [S0 S1].
      destruct (Hpix y x Hy Hx) as [P0 P1]. split.
      * intros Hm. destruct (S0 Hm) as [A B]. destruct (P0 B) as [C D].
        split; [congruence|exact D].
      * intros Hm. specialize (S1 Hm). unfold first_cover. simpl.
        destruct (covers c x y).
        -- destruct S1 as [A B]. destruct (P0 B) as [C D].
           split; [congruence|exact D].
        -- destruct S1 as [_ [B _]]. exact (P1 B).
Qed.

Lemma forward_loop_pixels (cs : list circle) :
  wf_circles cs ->
  forall f : nat -> nat -> rgb,
    exists f',
      forward_loop h w cs (tab h w f) = Ok (tab h w f')
      /\ forall y x, (y < h)%nat -> (x < w)%nat ->
           f' y x = match last_cover cs x y with
                    | Some c => color c
                    | None => f y x
                    end.
Proof.
  induction cs as [|c rest IH]; intros Hwf f.
  - exists f. split; [reflexivity|]. intros y x _ _. reflexivity.
  - inversion Hwf as [|c' rest' Hr Hwf']; subst.
    simpl forward_loop.
    rewrite (cv2_circle_tab h w rgb0 f c (color c) Hr). simpl rbind.
    destruct (IH Hwf' (fun y x => if covers c x y then color c else f y x))
      as [f' [Hrun Hpix]].
    exists f'. split; [exact Hrun|]. intros y x Hy Hx.
    rewrite (Hpix y x Hy Hx), last_cover_cons.
    destruct (last_cover rest x y); [reflexivity|].
    now destruct (covers c x y).
Qed.

Lemma composite_with_tab (early_exit : bool) (background_color : rgb)
      (reverse : bool) (cs : list circle) :
  wf_circles cs ->
  composite_with h w early_exit background_color reverse cs
  = Ok (tab h w (expected_pixel background_color reverse cs)).
Proof.
  intros Hwf. unfold composite_with, expected_pixel. destruct reverse.
  - assert (Hinv : pixel_inv h w (fun _ _ => rgb0) (fun _ _ => rgb0) (fun _ _ => 1%R)).
    { intros y x _ _. right. now repeat split. }
    destruct (reverse_loop_pixels early_exit Hwf Hinv) as [f' [m' [Hrun Hpix]]].
    unfold zeros, ones_mask. rewrite Hrun. simpl rbind.
    unfold full. rewrite add_masked_tab. f_equal. apply tab_ext.
    intros y x Hy Hx. destruct (Hpix y x Hy Hx) as [_ P1].
    specialize (P1 eq_refl). destruct (first_cover cs x y) as [c|].
    + destruct P1 as [-> ->]. apply rgb_add_scale_0.
    + destruct P1 as [-> ->]. apply rgb_add_0_scale_1.
  - destruct (forward_loop_pixels Hwf (fun _ _ => background_color))
      as [f' [Hrun Hpix]].
    unfold full. rewrite Hrun. f_equal. apply tab_ext.
    intros y x Hy Hx. rewrite (Hpix y x Hy Hx).
    now destruct (last_cover cs x y).
Qed.

End Occlusion.

(** ** Finalizer *)

Lemma clip01_range (x : R) : in01 (Num.clip01 x).
Proof.
  unfold Num.clip01, in01.
  destruct (Rlt_dec x 0); [lra|]. destruct (Rlt_dec 1 x); lra.
Qed.

Lemma clip01_id (x : R) : in01 x -> Num.clip01 x = x.
Proof.
  unfold Num.clip01, in01. intros Hx.
  destruct (Rlt_dec x 0); [lra|]. destruct (Rlt_dec 1 x); [lra|reflexivity].
Qed.

Lemma rgb_clip_id (p : rgb) : rgb_in01 p -> rgb_clip p = p.
Proof.
  destruct p as [[c1 c2] c3]. simpl. intros [H1 [H2 H3]].
  now rewrite !clip01_id.
Qed.

Lemma finalize_tab (colored : bool) (h w : nat) (f : nat -> nat -> rgb) :
  finalize colored (tab h w f)
  = tab h w (fun y x => channels colored (rgb_clip (f y x))).
Proof.
  unfold finalize, tab. rewrite map_map. apply map_ext. intros y.
  now rewrite map_map.
Qed.

Lemma expected_pixel_in01 (background_color : rgb) (reverse : bool)
      (cs : list circle) (y x : nat) :
  rgb_in01 background_color ->
  Forall (fun c => rgb_in01 (color c)) cs ->
  rgb_in01 (expected_pixel background_color reverse cs y x).
Proof.
  intros Hbg Hcs. unfold expected_pixel, first_cover, last_cover.
  destruct reverse.
  - destruct (find (fun c => covers c x y) cs) as [c|] eqn:Hf; [|exact Hbg].
    apply find_some in Hf. destruct Hf as [Hin _].
    rewrite Forall_forall in Hcs. now apply Hcs.
  - destruct (find (fun c => covers c x y) (rev cs)) as [c|] eqn:Hf; [|exact Hbg].
    apply find_some in Hf. destruct Hf as [Hin _].
    rewrite Forall_forall in Hcs. apply Hcs. now apply in_rev.
Qed.

Lemma chart_of_circles_tab (h w : nat) (background_color : rgb)
      (colored reverse : bool) (cs : list circle) :
  wf_circles cs ->
  chart_of_circles h w background_color colored reverse cs
  = Ok (tab h w (fun y x =>
                   channels colored
                     (rgb_clip (expected_pixel background_color reverse cs y x)))).
Proof.
  intros Hwf. unfold chart_of_circles, composite.
  rewrite (composite_with_tab h w true background_color reverse Hwf).
  simpl rbind. now rewrite finalize_tab.
Qed.

(** C4 (early-exit equivalence). In reverse mode, for every list of circle
    descriptors (radius at least 0), background colour and canvas size, the
    compositing loop with the early-exit check and the same loop without the
    check return the same canvas. *)
Theorem early_exit_equivalence (h w : nat) (background_color : rgb)
        (cs : list circle) :
  wf_circles cs ->
  exists chart,
    composite_with h w true background_color true cs = Ok chart
    /\ composite_with h w false background_color true cs = Ok chart.
Proof.
  intros Hwf. exists (tab h w (expected_pixel background_color true cs)).
  split; now apply composite_with_tab.
Qed.

(** ** Real-number facts for the radius law *)

Module NumFacts.
Local Open Scope R_scope.

Lemma exp_le (x y : R) : x <= y -> exp x <= exp y.
Proof.
  intros [Hlt | ->]; [left; now apply exp_increasing|right; reflexivity].
Qed.

Lemma ln_le (x y : R) : 0 < x -> x <= y -> ln x <= ln y.
Proof.
  intros Hx [Hlt | ->]; [left; now apply ln_increasing|right; reflexivity].
Qed.

Lemma Rpower_pos (x y : R) : 0 < Rpower x y.
Proof. unfold Rpower. apply exp_pos. Qed.

Lemma ln_Rpower (x y : R) : ln (Rpower x y) = y * ln x.
Proof. unfold Rpower. apply ln_exp. Qed.

(** For a negative exponent the power decreases with the base. *)
Lemma Rpower_antitone (a b e : R) :
  0 < a -> a <= b -> e < 0 -> Rpower b e <= Rpower a e.
Proof.
  intros Ha Hab He. unfold Rpower. apply exp_le.
  pose proof (ln_le Ha Hab). nra.
Qed.

Lemma Int_part_IZR (n : Z) : Int_part (IZR n) = n.
Proof. symmetry. apply Int_part_spec. lra. Qed.

Lemma Int_part_bounds (x : R) : IZR (Int_part x) <= x < IZR (Int_part x) + 1.
Proof. destruct (base_Int_part x). lra. Qed.

Lemma Int_part_mono (x y : R) : x <= y -> (Int_part x <= Int_part y)%Z.
Proof.
  intros Hxy. pose proof (Int_part_bounds x). pose proof (Int_part_bounds y).
  assert (Hlt : IZR (Int_part x) < IZR (Int_part y + 1)).
  { rewrite plus_IZR. lra. }
  apply lt_IZR in Hlt. lia.
Qed.

Lemma np_round_IZR (n : Z) : Num.np_round (IZR n) = n.
Proof.
  unfold Num.np_round. rewrite Int_part_IZR.
  destruct (Rlt_dec (IZR n - IZR n) (1 / 2)); [reflexivity|lra].
Qed.

Lemma np_round_floor_or_next (x : R) :
  Num.np_round x = Int_part x \/ Num.np_round x = (Int_part x + 1)%Z.
Proof.
  unfold Num.np_round.
  destruct (Rlt_dec _ _); [now left|].
  destruct (Rlt_dec _ _); [now right|].
  destruct (Z.even _); [now left|now right].
Qed.

Lemma np_round_mono (x y : R) :
  x <= y -> (Num.np_round x <= Num.np_round y)%Z.
Proof.
  intros Hxy. pose proof (Int_part_mono Hxy) as Hf.
  destruct (Z.eq_dec (Int_part x) (Int_part y)) as [Heq|Hne].
  - unfold Num.np_round. rewrite Heq.
    destruct (Rlt_dec (x - IZR (Int_part y)) (1 / 2));
      destruct (Rlt_dec (y - IZR (Int_part y)) (1 / 2));
      destruct (Rlt_dec (1 / 2) (x - IZR (Int_part y)));
      destruct (Rlt_dec (1 / 2) (y - IZR (Int_part y)));
      destruct (Z.even (Int_part y)); try lia; lra.
  - destruct (np_round_floor_or_next x) as [-> | ->];
      destruct (np_round_floor_or_next y) as [-> | ->]; lia.
Qed.

Lemma np_round_nonneg (x : R) : 0 <= x -> (0 <= Num.np_round x)%Z.
Proof.
  intros Hx. rewrite <- (np_round_IZR 0). now apply np_round_mono.
Qed.

(** The inverse transform maps the interval between [b ^ e] and [a ^ e] into
    [[a, b]], whatever the sign of the exponent [e]. *)
Lemma inverse_transform_bounds (a b e u : R) :
  0 < a -> a <= b -> e <> 0 ->
  Rpower b e <= u <= Rpower a e ->
  a <= Rpower u (1 / e) <= b.
Proof.
  intros Ha Hab He [Hlo Hhi].
  assert (Hb : 0 < b) by lra.
  assert (Hu : 0 < u) by (pose proof (Rpower_pos b e); lra).
  pose proof (ln_le Ha Hab) as Hln.
  pose proof (ln_le (Rpower_pos b e) Hlo) as H1. rewrite ln_Rpower in H1.
  pose proof (ln_le Hu Hhi) as H2. rewrite ln_Rpower in H2.
  set (q := 1 / e * ln u).
  assert (Hq : q * e = ln u) by (unfold q; field; exact He).
  assert (Hbounds : ln a <= q <= ln b).
  { destruct (Rlt_dec e 0); [split; nra|].
    assert (0 < e) by lra. split; nra. }
  unfold Rpower. fold q. split.
  - rewrite <- (exp_ln a Ha) at 1. apply exp_le. lra.
  - rewrite <- (exp_ln b Hb) at 1. apply exp_le. lra.
Qed.

Lemma exponent_eq (alpha : R) : alpha <> 1 -> -1 / (alpha - 1) = 1 / (1 - alpha).
Proof. intros H. field. split; lra. Qed.

End NumFacts.

(** ** The samplers *)

Section SamplerFacts.
Variable G : BitGenerator.
Local Open Scope R_scope.

Lemma draws_length {A} (n : nat) (draw : rng G -> A * rng G) (st : rng G) :
  length (fst (draws G n draw st)) = n.
Proof.
  revert st. induction n as [|n IH]; intros st; simpl; [reflexivity|].
  destruct (draw st) as [a st1]. specialize (IH st1).
  destruct (draws G n draw st1) as [l st2]. simpl in *. now rewrite IH.
Qed.

Lemma draws_Forall {A} (P : A -> Prop) (n : nat) (draw : rng G -> A * rng G) :
  (forall s, P (fst (draw s))) ->
  forall st, Forall P (fst (draws G n draw st)).
Proof.
  intros Hd. induction n as [|n IH]; intros st; simpl; [constructor|].
  pose proof (Hd st) as Ha. destruct (draw st) as [a st1].
  specialize (IH st1). destruct (draws G n draw st1) as [l st2].
  simpl in *. now constructor.
Qed.


Lemma uniform_accepts (low high : R) (size : Z) (st : rng G) :
  low <= high -> (0 <= size)%Z ->
  uniform G low high size st
  = (Ok (fst (uniform_variates G low high size st)),
     snd (uniform_variates G low high size st)).
Proof.
  intros Hle Hn. unfold uniform, uniform_variates.
  destruct (Rlt_dec (high - low) 0); [lra|].
  destruct (Z.ltb_spec size 0); [lia|].
  now destruct (draws G (Z.to_nat size) _ st).
Qed.

Lemma uniform_inv (low high : R) (size : Z) (st st' : rng G) (us : list R) :
  uniform G low high size st = (Ok us, st') ->
  low <= high /\ (0 <= size)%Z
  /\ us = fst (uniform_variates G low high size st)
  /\ st' = snd (uniform_variates G low high size st).
Proof.
  unfold uniform, uniform_variates.
  destruct (Rlt_dec (high - low) 0); [discriminate|].
  destruct (Z.ltb_spec size 0); [discriminate|].
  destruct (draws G (Z.to_nat size) _ st) as [l s].
  intros Heq. inversion Heq; subst. simpl. repeat split; [lra|lia].
Qed.

Lemma uniform_variates_length (low high : R) (size : Z) (st : rng G) :
  length (fst (uniform_variates G low high size st)) = Z.to_nat size.
Proof. apply draws_length. Qed.

Lemma uniform_variates_range (low high : R) (size : Z) (st : rng G) :
  low <= high ->
  Forall (fun u => low <= u <= high) (fst (uniform_variates G low high size st)).
Proof.
  intros Hle. apply draws_Forall. intros s.
  pose proof (next_double_range G s) as Ht.
  destruct (next_double G s) as [t s']. simpl in *. split; nra.
Qed.

Lemma py_pow_pos (x y : R) : 0 < x -> Num.py_pow x y = Ok (Rpower x y).
Proof.
  intros Hx. unfold Num.py_pow. destruct (Req_dec_T x 0); [lra|reflexivity].
Qed.

Lemma py_div_nonzero (x y : R) : y <> 0 -> Num.py_div x y = Ok (x / y).
Proof.
  intros Hy. unfold Num.py_div. destruct (Req_dec_T y 0); [contradiction|reflexivity].
Qed.

Lemma np_power_pos (us : list R) (e : R) :
  Forall (fun u => 0 < u) us ->
  rmapM (fun u => Num.np_power u e) us = Ok (map (fun u => Rpower u e) us).
Proof.
  induction 1 as [|u us Hu _ IH]; simpl; [reflexivity|].
  unfold Num.np_power at 1. destruct (Rlt_dec u 0); [lra|].
  destruct (Req_dec_T u 0); [lra|]. simpl. now rewrite IH.
Qed.

(** The radius sampler once its scalar arguments are accepted. *)
Lemma sample_radius_accepts (n : Z) (rmin rmax alpha : R) (st : rng G) :
  0 < rmin -> 0 < rmax -> alpha <> 1 -> (0 <= n)%Z ->
  Rpower rmax (1 - alpha) <= Rpower rmin (1 - alpha) ->
  sample_radius G n rmin rmax alpha st
  = (Ok (map (fun u => Num.np_round (Rpower u (1 / (1 - alpha))))
             (fst (uniform_variates G (Rpower rmax (1 - alpha))
                                    (Rpower rmin (1 - alpha)) n st))),
     snd (uniform_variates G (Rpower rmax (1 - alpha))
                           (Rpower rmin (1 - alpha)) n st)).
Proof.
  intros Hmin Hmax Ha Hn Hle. unfold sample_radius, bind, lift, ret.
  rewrite (py_pow_pos _ Hmax), (py_pow_pos _ Hmin).
  rewrite (uniform_accepts st Hle Hn).
  rewrite py_div_nonzero by lra.
  rewrite np_power_pos.
  - rewrite map_map. now rewrite NumFacts.exponent_eq.
  - eapply Forall_impl; [|apply (uniform_variates_range n st Hle)].
    intros u [Hu _]. pose proof (NumFacts.Rpower_pos rmax (1 - alpha)). simpl in *. lra.
Qed.



End SamplerFacts.

(** ** The radius law *)







(** The radius bounds in exact real arithmetic. For
    [0 < radius_min <= radius_max] and [radius_alpha <> 1], every radius
    that the sampler returns is the rounding of a real in
    [[radius_min, radius_max]], hence lies between [round radius_min] and
    [round radius_max]; with the defaults 1 and 2000 it lies in
    [[1, 2000]]. For [radius_alpha > 1] and a count [n >= 0] the sampler
    does return [n] radii. Binary64 rounding can move a radius past a
    half-integer bound: see [Binary64] below. *)
Theorem radius_within_bounds (G : BitGenerator) (n : Z)
        (rmin rmax alpha : R) (st : rng G) :
  (0 < rmin)%R -> (rmin <= rmax)%R -> alpha <> 1%R ->
  match sample_radius G n rmin rmax alpha st with
  | (Ok radii, _) =>
      (exists rs, radii = map Num.np_round rs
                  /\ Forall (fun r => (rmin <= r <= rmax)%R) rs)
      /\ Forall (fun k => (Num.np_round rmin <= k <= Num.np_round rmax)%Z) radii
      /\ (rmin = 1%R -> rmax = 2000%R ->
          Forall (fun k => (1 <= k <= 2000)%Z) radii)
  | (Raise _, _) => True
  end
  /\ ((1 < alpha)%R -> (0 <= n)%Z ->
      exists radii st',
        sample_radius G n rmin rmax alpha st = (Ok radii, st')
        /\ length radii = Z.to_nat n).
Proof.
  intros Hmin Hle Ha. assert (Hmax : (0 < rmax)%R) by lra. split.
  - destruct (sample_radius G n rmin rmax alpha st) as [[radii|e] st'] eqn:Hrun;
      [|exact I].
    pose proof Hrun as Hrun'.
    unfold sample_radius, bind, lift in Hrun'.
    rewrite (py_pow_pos _ Hmax), (py_pow_pos _ Hmin) in Hrun'.
    destruct (uniform G (Rpower rmax (1 - alpha)) (Rpower rmin (1 - alpha)) n st)
      as [[us|e] s] eqn:Hu; [|discriminate].
    apply uniform_inv in Hu. destruct Hu as [Hend [Hn _]]. clear Hrun'.
    rewrite (sample_radius_accepts G st Hmin Hmax Ha Hn Hend) in Hrun.
    inversion Hrun as [[Hr Hs]]. clear Hrun Hs.
    set (us0 := fst (uniform_variates G (Rpower rmax (1 - alpha))
                                      (Rpower rmin (1 - alpha)) n st)).
    assert (Hreal : Forall (fun r => (rmin <= r <= rmax)%R)
                           (map (fun u => Rpower u (1 / (1 - alpha))) us0)).
    { apply Forall_map.
      eapply Forall_impl; [|apply (uniform_variates_range G n st Hend)].
      intros u Hu. apply NumFacts.inverse_transform_bounds; try assumption. lra. }
    assert (Hint : Forall (fun k => (Num.np_round rmin <= k <= Num.np_round rmax)%Z)
                          (map (fun u => Num.np_round (Rpower u (1 / (1 - alpha)))) us0)).
    { rewrite <- (map_map (fun u => Rpower u (1 / (1 - alpha))) Num.np_round).
      apply Forall_map. eapply Forall_impl; [|exact Hreal].
      intros r [H1 H2]. split; now apply NumFacts.np_round_mono. }
    split; [|split].
    + exists (map (fun u => Rpower u (1 / (1 - alpha))) us0).
      split; [now rewrite map_map|exact Hreal].
    + exact Hint.
    + intros -> ->. change 1%R with (IZR 1) in Hint. change 2000%R with (IZR 2000) in Hint.
      now rewrite !NumFacts.np_round_IZR in Hint.
  - intros Hgt Hn.
    assert (Hend : (Rpower rmax (1 - alpha) <= Rpower rmin (1 - alpha))%R).
    { apply NumFacts.Rpower_antitone; lra. }
    rewrite (sample_radius_accepts G st Hmin Hmax Ha Hn Hend).
    eexists _, _. split; [reflexivity|].
    rewrite length_map. apply uniform_variates_length.
Qed.

(** ** What the sampled arrays satisfy *)

Section EntryFacts.
Variable G : BitGenerator.
Variable S : ColorSampler.

Lemma integers_inv (low high size : Z) (st st' : rng G) (l : list Z) :
  integers G low high size st = (Ok l, st') ->
  (size <> 0%Z -> (low < high)%Z) /\ (0 <= size)%Z /\ length l = Z.to_nat size.
Proof.
  unfold integers.
  destruct (Z.eqb_spec size 0) as [->|Hnz];
    [intros [= <- _]; repeat split; [intros []; reflexivity|lia]|].
  destruct (Z.leb_spec high low); [discriminate|].
  destruct (Z.ltb_spec size 0); [discriminate|].
  pose proof (draws_length G (Z.to_nat size)
                (fun s => let (k, s') := next_bounded G (high - low) s in
                          ((low + k)%Z, s')) st) as Hlen.
  destruct (draws G (Z.to_nat size) _ st) as [l0 s0].
  intros Heq. inversion Heq; subst. simpl in Hlen. repeat split; lia.
Qed.


Lemma integers_errors (low high size : Z) (st st' : rng G) (e : exn) :
  integers G low high size st = (Raise e, st') -> e = ValueError /\ st' = st.
Proof.
  unfold integers.
  destruct (Z.eqb_spec size 0); [discriminate|].
  destruct (Z.leb_spec high low); [now intros [= <- <-]|].
  destruct (Z.ltb_spec size 0); [now intros [= <- <-]|].
  destruct (draws G (Z.to_nat size) _ st). discriminate.
Qed.

Lemma np_power_nonneg (e : R) (us rs : list R) :
  rmapM (fun u => Num.np_power u e) us = Ok rs ->
  Forall (fun r => (0 <= r)%R) rs.
Proof.
  revert rs. induction us as [|u us IH]; simpl; intros rs Hrs.
  - inversion Hrs. constructor.
  - destruct (Num.np_power u e) as [r|] eqn:Hr; [|discriminate]. simpl in Hrs.
    destruct (rmapM (fun u0 => Num.np_power u0 e) us) as [rs'|]; [|discriminate].
    simpl in Hrs. inversion Hrs; subst. constructor; [|now apply IH].
    unfold Num.np_power in Hr.
    destruct (Rlt_dec u 0); [discriminate|].
    destruct (Req_dec_T u 0).
    + destruct (Rlt_dec e 0); [discriminate|].
      destruct (Req_dec_T e 0); inversion Hr; lra.
    + inversion Hr. left. apply NumFacts.Rpower_pos.
Qed.

Lemma rmapM_length {A B} (f : A -> result B) (l : list A) (l' : list B) :
  rmapM f l = Ok l' -> length l' = length l.
Proof.
  revert l'. induction l as [|a l IH]; simpl; intros l' H.
  - inversion H. reflexivity.
  - destruct (f a); [|discriminate]. simpl in H.
    destruct (rmapM f l); [|discriminate]. simpl in H.
    inversion H; subst. simpl. f_equal. now apply IH.
Qed.

(** Every radius that the sampler returns is non-negative. *)
Lemma sample_radius_inv (n : Z) (rmin rmax alpha : R) (st st' : rng G)
      (radii : list Z) :
  sample_radius G n rmin rmax alpha st = (Ok radii, st') ->
  Forall (fun k => (0 <= k)%Z) radii /\ length radii = Z.to_nat n.
Proof.
  unfold sample_radius, bind, lift, ret.
  destruct (Num.py_pow rmax (1 - alpha)) as [low|]; [|discriminate].
  destruct (Num.py_pow rmin (1 - alpha)) as [high|]; [|discriminate].
  destruct (uniform G low high n st) as [[us|] s] eqn:Hu; [|discriminate].
  destruct (Num.py_div (-1) (alpha - 1)) as [e|]; [|discriminate].
  destruct (rmapM (fun u => Num.np_power u e) us) as [rs|] eqn:Hrs; [|discriminate].
  intros Heq. inversion Heq; subst. split.
  - apply Forall_map. eapply Forall_impl; [|apply (np_power_nonneg _ _ Hrs)].
    intros r Hr. now apply NumFacts.np_round_nonneg.
  - rewrite length_map, (rmapM_length _ _ Hrs).
    apply uniform_inv in Hu. destruct Hu as [_ [_ [-> _]]].
    apply uniform_variates_length.
Qed.

Lemma sample_color_inv (colored : bool) (n : Z) (st st' : rng G)
      (col : list rgb) :
  sample_color G S colored n st = (Ok col, st') ->
  Forall rgb_in01 col /\ length col = Z.to_nat n.
Proof.
  unfold sample_color, bind, ret. destruct colored.
  - destruct (integers1 G 0 (10 ^ 10) st) as [[k|] s]; [|discriminate].
    intros Heq. inversion Heq; subst. split.
    + apply Forall_forall. intros c Hc.
      exact (sample_rgb_values_range S n k c Hc).
    + apply sample_rgb_values_length.
  - destruct (uniform G (25 / 100) (75 / 100) n st) as [[us|] s] eqn:Hu;
      [|discriminate].
    intros Heq. inversion Heq; subst.
    apply uniform_inv in Hu. destruct Hu as [Hle [_ [-> _]]]. split.
    + apply Forall_map.
      eapply Forall_impl; [|apply (uniform_variates_range G n st Hle)].
      intros u Hu. unfold rgb_in01, in01. repeat split; lra.
    + rewrite length_map. apply uniform_variates_length.
Qed.

Lemma zip_circles_wf (cx cy r : list Z) (col : list rgb) :
  Forall (fun k => (0 <= k)%Z) r ->
  wf_circles (zip_circles cx cy r col).
Proof.
  intros Hr. revert cx cy col.
  induction Hr as [|k r Hk _ IH]; intros cx cy col.
  - destruct cx, cy; constructor.
  - destruct cx as [|x cx], cy as [|y cy], col as [|c col]; try constructor.
    + exact Hk.
    + apply IH.
Qed.

Lemma zip_circles_colors (cx cy r : list Z) (col : list rgb) :
  Forall rgb_in01 col ->
  Forall (fun c => rgb_in01 (color c)) (zip_circles cx cy r col).
Proof.
  intros Hc. revert cx cy r.
  induction Hc as [|c col Hc0 _ IH]; intros cx cy r.
  - destruct cx, cy, r; constructor.
  - destruct cx as [|x cx], cy as [|y cy], r as [|k r]; try constructor.
    + exact Hc0.
    + apply IH.
Qed.

(** A successful sampling stage: positive extents unless no circle is
    asked for, [n] entries per array, non-negative radii and colours in the
    unit interval. *)
Lemma sample_circles_inv (size : Z * Z) (number_of_circles : Z)
      (colored : bool) (rmin rmax alpha : R) (st st' : rng G)
      (a : list Z * list Z * list Z * list rgb) :
  sample_circles G S size number_of_circles colored rmin rmax alpha st
  = (Ok a, st') ->
  (default_count size number_of_circles <> 0%Z -> (0 < fst size)%Z)
  /\ (default_count size number_of_circles <> 0%Z -> (0 < snd size)%Z)
  /\ wf_circles (circles_of a)
  /\ Forall (fun c => rgb_in01 (color c)) (circles_of a)
  /\ length (circles_of a) = Z.to_nat (default_count size number_of_circles).
Proof.
  unfold sample_circles, sample_geometry, bind, ret.
  set (n := default_count size number_of_circles).
  destruct (integers G 0 (snd size) n st) as [[cx|] s1] eqn:Hx; [|discriminate].
  destruct (integers G 0 (fst size) n s1) as [[cy|] s2] eqn:Hy; [|discriminate].
  destruct (sample_radius G n (default_radius rmin 1) (default_radius rmax 2000)
                          alpha s2) as [[r|] s3] eqn:Hr; [|discriminate].
  destruct (sample_color G S colored n s3) as [[col|] s4] eqn:Hc; [|discriminate].
  intros Heq. inversion Heq; subst. simpl circles_of.
  apply integers_inv in Hx. apply integers_inv in Hy.
  apply sample_radius_inv in Hr. apply sample_color_inv in Hc.
  destruct Hx as [Hw [_ Lx]], Hy as [Hh [_ Ly]], Hr as [Hr Lr], Hc as [Hc Lc].
  split; [intros Hn; specialize (Hh Hn); lia|].
  split; [intros Hn; specialize (Hw Hn); lia|].
  repeat split.
  - now apply zip_circles_wf.
  - now apply zip_circles_colors.
  - clear - Lx Ly Lr Lc. revert cx cy r col Lx Ly Lr Lc.
    induction (Z.to_nat n) as [|k IH]; intros cx cy r col Lx Ly Lr Lc.
    + destruct cx; [reflexivity|discriminate].
    + destruct cx, cy, r, col; try discriminate. simpl. f_equal.
      apply IH; simpl in *; lia.
Qed.

(** A successful sampling stage has a count of at least 0. *)
Lemma sample_circles_count (size : Z * Z) (number_of_circles : Z)
      (colored : bool) (rmin rmax alpha : R) (st st' : rng G)
      (a : list Z * list Z * list Z * list rgb) :
  sample_circles G S size number_of_circles colored rmin rmax alpha st
  = (Ok a, st') ->
  (0 <= default_count size number_of_circles)%Z.
Proof.
  unfold sample_circles, sample_geometry, bind, ret.
  set (n := default_count size number_of_circles).
  destruct (integers G 0 (snd size) n st) as [[cx|] s1] eqn:Hx; [|discriminate].
  intros _. apply integers_inv in Hx. lia.
Qed.

End EntryFacts.

(** ** The generated chart *)

(** C1 (occlusion). For a background colour in the unit interval, every call
    whose sampling stage succeeds returns a buffer in which each pixel holds,
    in reverse mode, the colour of the first circle in list order whose disk
    covers it and, in forward mode, the colour of the last such circle; a
    pixel that no circle covers holds the background colour. A call whose
    sampling stage raises returns no buffer. *)
Theorem occlusion_correct (G : BitGenerator) (S : ColorSampler)
        (size : Z * Z) (number_of_circles : Z) (background_color : rgb)
        (colored : bool) (rmin rmax alpha : R) (seed : option Z)
        (reverse : bool) (os_entropy : Z) :
  rgb_in01 background_color ->
  match sample_circles G S size number_of_circles colored rmin rmax alpha
                       (default_rng G (SeedSequence seed os_entropy)) with
  | (Ok a, st) =>
      exists out,
        dead_leaves_chart G S size number_of_circles background_color colored
                          rmin rmax alpha seed reverse os_entropy
        = (Ok out, st)
        /\ forall y x,
            (y < Z.to_nat (fst size))%nat -> (x < Z.to_nat (snd size))%nat ->
            pix [] out y x
            = channels colored
                (match (if reverse then first_cover (circles_of a) x y
                        else last_cover (circles_of a) x y) with
                 | Some c => color c
                 | None => background_color
                 end)
  | (Raise e, st) =>
      dead_leaves_chart G S size number_of_circles background_color colored
                        rmin rmax alpha seed reverse os_entropy
      = (Raise e, st)
  end.
Proof.
  intros Hbg. unfold dead_leaves_chart, bind.
  destruct (sample_circles G S size number_of_circles colored rmin rmax alpha
                           (default_rng G (SeedSequence seed os_entropy)))
    as [[a|e] st] eqn:Hrun; [|reflexivity].
  apply sample_circles_inv in Hrun.
  destruct Hrun as [_ [_ [Hwf [Hcol _]]]].
  unfold lift, render. rewrite chart_of_circles_tab by exact Hwf.
  eexists. split; [reflexivity|]. intros y x Hy Hx.
  rewrite pix_tab by assumption.
  rewrite rgb_clip_id by now apply expected_pixel_in01.
  reflexivity.
Qed.

(** C8 (clipping and shape). Whenever the entry point returns a buffer, the
    buffer has [height] rows of [width] pixels, each pixel has 3 channels
    when [colored] and 1 channel otherwise, and every channel value lies in
    the unit interval. This includes the calls on a zero extent without
    circles, which return an empty buffer. *)
Theorem output_clipped_and_shaped (G : BitGenerator) (S : ColorSampler)
        (size : Z * Z) (number_of_circles : Z) (background_color : rgb)
        (colored : bool) (rmin rmax alpha : R) (seed : option Z)
        (reverse : bool) (os_entropy : Z) :
  match fst (dead_leaves_chart G S size number_of_circles background_color
                               colored rmin rmax alpha seed reverse os_entropy)
  with
  | Ok out =>
      length out = Z.to_nat (fst size)
      /\ Forall (fun row =>
                   length row = Z.to_nat (snd size)
                   /\ Forall (fun p =>
                                length p = (if colored then 3 else 1)%nat
                                /\ Forall in01 p) row) out
  | Raise _ => True
  end.
Proof.
  unfold dead_leaves_chart, bind.
  destruct (sample_circles G S size number_of_circles colored rmin rmax alpha
                           (default_rng G (SeedSequence seed os_entropy)))
    as [[a|e] st] eqn:Hrun; [|exact I].
  apply sample_circles_inv in Hrun.
  destruct Hrun as [_ [_ [Hwf _]]].
  unfold lift, render. rewrite chart_of_circles_tab by exact Hwf.
  cbn [fst].
  split; [apply tab_length|].
  apply Forall_forall. intros row Hrow. split.
  - exact (tab_row_length _ _ _ _ Hrow).
  - apply Forall_forall. intros p Hp.
    destruct (tab_In _ _ _ _ _ Hrow Hp) as [y [x [_ [_ ->]]]].
    destruct (expected_pixel background_color reverse (circles_of a) y x)
      as [[c1 c2] c3].
    pose proof (clip01_range c1). pose proof (clip01_range c2).
    pose proof (clip01_range c3).
    destruct colored; simpl; (split; [reflexivity|]);
      repeat (apply Forall_cons; [assumption|]); apply Forall_nil.
Qed.

(** C10 (geometry does not depend on the colour mode). For a given initial
    generator state and given size, count and radius parameters, the
    sampling stage with [colored = true] and with [colored = false] returns
    the same centres and radii, or raises the same exception at the same
    state: the geometry is drawn before any colour. *)
Theorem geometry_independent_of_colored (G : BitGenerator) (S : ColorSampler)
        (size : Z * Z) (number_of_circles : Z) (rmin rmax alpha : R)
        (st : rng G) :
  match sample_geometry G size (default_count size number_of_circles)
                        (default_radius rmin 1) (default_radius rmax 2000)
                        alpha st with
  | (Ok g, _) =>
      exists col_t st_t col_f st_f,
        sample_circles G S size number_of_circles true rmin rmax alpha st
        = (Ok (g, col_t), st_t)
        /\ sample_circles G S size number_of_circles false rmin rmax alpha st
           = (Ok (g, col_f), st_f)
  | (Raise e, st') =>
      sample_circles G S size number_of_circles true rmin rmax alpha st
      = (Raise e, st')
      /\ sample_circles G S size number_of_circles false rmin rmax alpha st
         = (Raise e, st')
  end.
Proof.
  unfold sample_circles, bind.
  set (n := default_count size number_of_circles).
  destruct (sample_geometry G size n (default_radius rmin 1)
                            (default_radius rmax 2000) alpha st)
    as [[g|e] st1] eqn:Hg; [|now split].
  assert (Hn : (0 <= n)%Z).
  { unfold sample_geometry, bind in Hg.
    destruct (integers G 0 (snd size) n st) as [[cx|] s1] eqn:Hx; [|discriminate].
    apply integers_inv in Hx. lia. }
  unfold sample_color, bind, integers1, ret.
  destruct (Z.leb_spec (10 ^ 10) 0) as [Hle|_]; [vm_compute in Hle; contradiction|].
  destruct (next_bounded G (10 ^ 10 - 0) st1) as [k s2].
  rewrite (uniform_accepts G st1 (low:=25 / 100) (high:=75 / 100) ltac:(lra) Hn).
  do 4 eexists. split; reflexivity.
Qed.

(** ** Accepted and rejected arguments *)

Section Acceptance.
Variable G : BitGenerator.
Variable S : ColorSampler.
Local Open Scope R_scope.


Lemma default_radius_nonneg (r d : R) : 0 <= d -> 0 <= default_radius r d.
Proof.
  intros Hd. unfold default_radius. destruct (Rlt_dec r 0); lra.
Qed.






Lemma dead_leaves_chart_returns (size : Z * Z) (number_of_circles : Z)
      (background_color : rgb) (colored : bool) (rmin rmax alpha : R)
      (seed : option Z) (reverse : bool) (os_entropy : Z)
      (a : list Z * list Z * list Z * list rgb) (st : rng G) :
  sample_circles G S size number_of_circles colored rmin rmax alpha
                 (default_rng G (SeedSequence seed os_entropy))
  = (Ok a, st) ->
  dead_leaves_chart G S size number_of_circles background_color colored
                    rmin rmax alpha seed reverse os_entropy
  = (Ok (tab (Z.to_nat (fst size)) (Z.to_nat (snd size))
             (fun y x =>
                channels colored
                  (rgb_clip (expected_pixel background_color reverse
                                            (circles_of a) y x)))), st).
Proof.
  intros Hrun. unfold dead_leaves_chart, bind. rewrite Hrun.
  apply sample_circles_inv in Hrun. destruct Hrun as [_ [_ [Hwf _]]].
  unfold lift, render. now rewrite chart_of_circles_tab.
Qed.

End Acceptance.



(** ** Invalid parameters *)

Section Rejection.
Variable G : BitGenerator.
Variable S : ColorSampler.
Local Open Scope R_scope.










End Rejection.



(** ** Instances at concrete inputs *)

(** The early-exit equivalence at a list whose first circle fills the
    canvas. *)
Lemma early_exit_equivalence_witness :
  wf_circles two_circles
  /\ exists chart,
      composite_with 2 2 true gray true two_circles = Ok chart
      /\ composite_with 2 2 false gray true two_circles = Ok chart.
Proof.
  assert (Hwf : wf_circles two_circles).
  { unfold two_circles, wf_circles. repeat constructor; simpl; lia. }
  split; [exact Hwf|]. exact (early_exit_equivalence 2 2 gray Hwf).
Defined.

Lemma gray_in01 : rgb_in01 gray.
Proof. unfold gray, rgb_in01, in01. repeat split; lra. Qed.

(** Occlusion at a 2 x 2 canvas with three circles, in reverse mode. *)
Lemma occlusion_correct_witness :
  rgb_in01 gray
  /\ match sample_circles counting_generator red_sampler (2, 2)%Z 3 true
                          (-1) (-1) 3
                          (default_rng counting_generator
                                       (SeedSequence (Some 7%Z) 0)) with
     | (Ok a, st) =>
         exists out,
           dead_leaves_chart counting_generator red_sampler (2, 2)%Z 3 gray
                             true (-1) (-1) 3 (Some 7%Z) true 0
           = (Ok out, st)
           /\ forall y x,
               (y < Z.to_nat (fst (2, 2)%Z))%nat ->
               (x < Z.to_nat (snd (2, 2)%Z))%nat ->
               pix [] out y x
               = channels true
                   (match (if true then first_cover (circles_of a) x y
                           else last_cover (circles_of a) x y) with
                    | Some c => color c
                    | None => gray
                    end)
     | (Raise e, st) =>
         dead_leaves_chart counting_generator red_sampler (2, 2)%Z 3 gray
                           true (-1) (-1) 3 (Some 7%Z) true 0
         = (Raise e, st)
     end.
Proof.
  split; [exact gray_in01|].
  exact (@occlusion_correct counting_generator red_sampler (2, 2)%Z 3 gray
           true (-1) (-1) 3 (Some 7%Z) true 0%Z gray_in01).
Defined.



(** ** The model's [NonFinite] outcome is never reached *)

Section Finite.
Variable G : BitGenerator.
Local Open Scope R_scope.

Lemma py_pow_cases (x y : R) :
  0 <= x ->
  Num.py_pow x y = Raise ZeroDivisionError
  \/ exists v, Num.py_pow x y = Ok v /\ 0 <= v /\ (v = 0 -> x = 0 /\ 0 < y).
Proof.
  intros Hx. unfold Num.py_pow. destruct (Req_dec_T x 0) as [Hz|Hnz].
  - destruct (Rlt_dec y 0); [now left|]. right.
    destruct (Req_dec_T y 0).
    + exists 1. repeat split; lra.
    + exists 0. repeat split; lra.
  - right. exists (Rpower x y). pose proof (NumFacts.Rpower_pos x y).
    repeat split; lra.
Qed.

Lemma np_power_total (e : R) (us : list R) :
  Forall (fun u => 0 < u \/ (u = 0 /\ 0 < e)) us ->
  exists rs, rmapM (fun u => Num.np_power u e) us = Ok rs.
Proof.
  induction 1 as [|u us Hu _ [rs IH]]; simpl.
  - now exists [].
  - rewrite IH. unfold Num.np_power.
    destruct (Rlt_dec u 0); [lra|].
    destruct (Req_dec_T u 0).
    + destruct (Rlt_dec e 0); [lra|].
      destruct (Req_dec_T e 0); [lra|]. now eexists.
    + now eexists.
Qed.

(** On non-negative radius bounds the radius sampler either returns or
    raises one of the two run-time errors of the generator and of Python
    arithmetic. *)
Lemma sample_radius_errors (n : Z) (rmin rmax alpha : R) (st st' : rng G)
      (e : exn) :
  0 <= rmin -> 0 <= rmax ->
  sample_radius G n rmin rmax alpha st = (Raise e, st') ->
  runtime_error e.
Proof.
  intros Hmin Hmax. unfold sample_radius, bind, lift, ret.
  destruct (py_pow_cases (1 - alpha) Hmax) as [->|[low [-> [Hlow Hlow0]]]];
    [intros [= <- _]; now right|].
  destruct (py_pow_cases (1 - alpha) Hmin) as [->|[high [-> _]]];
    [intros [= <- _]; now right|].
  destruct (uniform G low high n st) as [[us|e0] s] eqn:Hu.
  - apply uniform_inv in Hu. destruct Hu as [Hle [_ [-> _]]].
    unfold Num.py_div. destruct (Req_dec_T (alpha - 1) 0) as [Hz|Hnz];
      [intros [= <- _]; now right|].
    destruct (@np_power_total (-1 / (alpha - 1))
                (fst (uniform_variates G low high n st))) as [rs ->];
      [|discriminate].
    eapply Forall_impl; [|apply (uniform_variates_range G n st Hle)].
    intros u [Hu _]. destruct (Req_dec_T u 0) as [Hu0|Hu0]; [|left; lra].
    right. split; [exact Hu0|].
    assert (Hl : low = 0) by lra. destruct (Hlow0 Hl) as [_ Ha].
    rewrite NumFacts.exponent_eq by lra. apply Rdiv_lt_0_compat; lra.
  - revert Hu. unfold uniform.
    destruct (Rlt_dec (high - low) 0); [intros [= <- _] [= <- _]; now left|].
    destruct (Z.ltb_spec n 0); [intros [= <- _] [= <- _]; now left|].
    destruct (draws G (Z.to_nat n) _ st). discriminate.
Qed.

End Finite.

(** ** The compositor on a small canvas *)

Example reverse_first_circle_wins :
  exists out,
    chart_of_circles 2 2 gray true true two_circles = Ok out
    /\ pix [] out 1 1 = [1; 0; 0]%R
    /\ pix [] out 0 0 = [1; 0; 0]%R.
Proof.
  assert (Hwf : wf_circles two_circles).
  { unfold two_circles, wf_circles. repeat constructor; simpl; lia. }
  rewrite (chart_of_circles_tab 2 2 gray true true Hwf).
  eexists. split; [reflexivity|].
  rewrite !pix_tab by lia.
  unfold expected_pixel, first_cover, two_circles. cbn [find covers in_disk].
  cbn. rewrite !clip01_id by (unfold in01; lra). now split.
Qed.

Example forward_last_circle_wins :
  exists out,
    chart_of_circles 2 2 gray true false two_circles = Ok out
    /\ pix [] out 1 1 = [0; 0; 1]%R
    /\ pix [] out 0 0 = [1; 0; 0]%R.
Proof.
  assert (Hwf : wf_circles two_circles).
  { unfold two_circles, wf_circles. repeat constructor; simpl; lia. }
  rewrite (chart_of_circles_tab 2 2 gray true false Hwf).
  eexists. split; [reflexivity|].
  rewrite !pix_tab by lia.
  unfold expected_pixel, last_cover, two_circles. cbn [rev app find covers in_disk].
  cbn. rewrite !clip01_id by (unfold in01; lra). now split.
Qed.

(** * Further properties of the compositor *)

Lemma find_app_some {A} (f : A -> bool) (l1 l2 : list A) (a : A) :
  find f l1 = Some a -> find f (l1 ++ l2) = Some a.
Proof.
  induction l1 as [|b l1 IH]; simpl; [discriminate|].
  destruct (f b); [trivial|exact IH].
Qed.

Lemma find_app_none {A} (f : A -> bool) (l1 l2 : list A) :
  find f l1 = None -> find f (l1 ++ l2) = find f l2.
Proof.
  induction l1 as [|b l1 IH]; simpl; [reflexivity|].
  destruct (f b); [discriminate|exact IH].
Qed.

Lemma find_skip {A} (f : A -> bool) (l1 l2 : list A) (a : A) :
  f a = false -> find f (l1 ++ a :: l2) = find f (l1 ++ l2).
Proof.
  intros Ha. induction l1 as [|b l1 IH]; simpl.
  - now rewrite Ha.
  - destruct (f b); [reflexivity|exact IH].
Qed.

Lemma find_covered {A} (f : A -> bool) (l : list A) (a : A) :
  In a l -> f a = true -> exists b, find f l = Some b.
Proof.
  intros Hin Ha. destruct (find f l) as [b|] eqn:Hf; [now exists b|].
  pose proof (find_none f l Hf a Hin). congruence.
Qed.

Lemma wf_circles_app (cs1 cs2 : list circle) :
  wf_circles (cs1 ++ cs2) <-> wf_circles cs1 /\ wf_circles cs2.
Proof. unfold wf_circles. apply Forall_app. Qed.

Lemma wf_circles_rev (cs : list circle) : wf_circles cs -> wf_circles (rev cs).
Proof. unfold wf_circles. apply Forall_rev. Qed.

(** X1. Reverse mode is forward mode on the reversed list: for every list
    of circle descriptors the reverse loop (lines 72-83) and the forward
    loop (lines 85-88) run on the reversed list return the same canvas. *)
Theorem reverse_mode_is_forward_on_reversed (h w : nat) (background_color : rgb)
        (cs : list circle) :
  wf_circles cs ->
  exists chart,
    composite h w background_color true cs = Ok chart
    /\ composite h w background_color false (rev cs) = Ok chart.
Proof.
  intros Hwf. unfold composite.
  rewrite (composite_with_tab h w true background_color true Hwf).
  rewrite (composite_with_tab h w true background_color false (wf_circles_rev Hwf)).
  eexists. split; [reflexivity|]. f_equal. apply tab_ext. intros y x _ _.
  unfold expected_pixel, last_cover, first_cover. now rewrite rev_involutive.
Qed.

(** X2. The two modes return the same canvas whenever any two circles that
    cover a common pixel of the canvas have the same colour, in particular
    when the disks do not overlap on the canvas. *)
Theorem modes_agree_without_conflict (h w : nat) (background_color : rgb)
        (cs : list circle) :
  wf_circles cs ->
  (forall y x, (y < h)%nat -> (x < w)%nat ->
     forall c1 c2, In c1 cs -> In c2 cs ->
       covers c1 x y = true -> covers c2 x y = true -> color c1 = color c2) ->
  exists chart,
    composite h w background_color true cs = Ok chart
    /\ composite h w background_color false cs = Ok chart.
Proof.
  intros Hwf Hsame. unfold composite.
  rewrite (composite_with_tab h w true background_color true Hwf).
  rewrite (composite_with_tab h w true background_color false Hwf).
  eexists. split; [reflexivity|]. f_equal. apply tab_ext. intros y x Hy Hx.
  unfold expected_pixel, first_cover, last_cover.
  destruct (find (fun c => covers c x y) cs) as [c1|] eqn:H1;
    destruct (find (fun c => covers c x y) (rev cs)) as [c2|] eqn:H2.
  - apply find_some in H1. apply find_some in H2.
    destruct H1 as [I1 C1], H2 as [I2 C2]. apply in_rev in I2.
    symmetry. now apply (Hsame y x Hy Hx c1 c2).
  - apply find_some in H1. destruct H1 as [I1 C1].
    pose proof (find_none _ _ H2 c1 (proj1 (in_rev cs c1) I1)) as Hc.
    simpl in Hc. congruence.
  - apply find_some in H2. destruct H2 as [I2 C2]. apply in_rev in I2.
    pose proof (find_none _ _ H1 c2 I2) as Hc. simpl in Hc. congruence.
  - reflexivity.
Qed.

(** X3. In reverse mode a pixel that some circle of a prefix of the list
    covers keeps its colour however the list is continued; once a prefix
    covers the whole canvas, the circles after it do not change the
    canvas. *)
Theorem reverse_prefix_decides (h w : nat) (background_color : rgb)
        (cs1 cs2 : list circle) :
  wf_circles (cs1 ++ cs2) ->
  exists chart1 chart12,
    composite h w background_color true cs1 = Ok chart1
    /\ composite h w background_color true (cs1 ++ cs2) = Ok chart12
    /\ (forall y x, (y < h)%nat -> (x < w)%nat ->
          (exists c, In c cs1 /\ covers c x y = true) ->
          pix rgb0 chart12 y x = pix rgb0 chart1 y x)
    /\ ((forall y x, (y < h)%nat -> (x < w)%nat ->
           exists c, In c cs1 /\ covers c x y = true) ->
        chart12 = chart1).
Proof.
  intros Hwf. pose proof (proj1 (wf_circles_app cs1 cs2) Hwf) as [Hwf1 _].
  unfold composite.
  rewrite (composite_with_tab h w true background_color true Hwf1).
  rewrite (composite_with_tab h w true background_color true Hwf).
  assert (Hpix : forall y x,
             (exists c, In c cs1 /\ covers c x y = true) ->
             expected_pixel background_color true (cs1 ++ cs2) y x
             = expected_pixel background_color true cs1 y x).
  { intros y x [c [Hin Hc]]. unfold expected_pixel, first_cover.
    destruct (find_covered (fun c0 => covers c0 x y) cs1 c Hin Hc) as [b Hb].
    now rewrite (find_app_some _ _ cs2 Hb), Hb. }
  do 2 eexists. split; [reflexivity|]. split; [reflexivity|]. split.
  - intros y x Hy Hx Hcov. rewrite !pix_tab by assumption. now apply Hpix.
  - intros Hall. apply tab_ext. intros y x Hy Hx. apply Hpix. now apply Hall.
Qed.

(** X4. In forward mode a pixel that some circle of a suffix of the list
    covers does not depend on the circles before the suffix; once a suffix
    covers the whole canvas, the circles before it are hidden. *)
Theorem forward_suffix_decides (h w : nat) (background_color : rgb)
        (cs1 cs2 : list circle) :
  wf_circles (cs1 ++ cs2) ->
  exists chart2 chart12,
    composite h w background_color false cs2 = Ok chart2
    /\ composite h w background_color false (cs1 ++ cs2) = Ok chart12
    /\ (forall y x, (y < h)%nat -> (x < w)%nat ->
          (exists c, In c cs2 /\ covers c x y = true) ->
          pix rgb0 chart12 y x = pix rgb0 chart2 y x)
    /\ ((forall y x, (y < h)%nat -> (x < w)%nat ->
           exists c, In c cs2 /\ covers c x y = true) ->
        chart12 = chart2).
Proof.
  intros Hwf. pose proof (proj1 (wf_circles_app cs1 cs2) Hwf) as [_ Hwf2].
  unfold composite.
  rewrite (composite_with_tab h w true background_color false Hwf2).
  rewrite (composite_with_tab h w true background_color false Hwf).
  assert (Hpix : forall y x,
             (exists c, In c cs2 /\ covers c x y = true) ->
             expected_pixel background_color false (cs1 ++ cs2) y x
             = expected_pixel background_color false cs2 y x).
  { intros y x [c [Hin Hc]]. unfold expected_pixel, last_cover.
    rewrite rev_app_distr.
    destruct (find_covered (fun c0 => covers c0 x y) (rev cs2) c
                (proj1 (in_rev cs2 c) Hin) Hc) as [b Hb].
    now rewrite (find_app_some _ _ (rev cs1) Hb), Hb. }
  do 2 eexists. split; [reflexivity|]. split; [reflexivity|]. split.
  - intros y x Hy Hx Hcov. rewrite !pix_tab by assumption. now apply Hpix.
  - intros Hall. apply tab_ext. intros y x Hy Hx. apply Hpix. now apply Hall.
Qed.

(** X5. When the reverse loop of lines 75-81 ends, with or without the
    early exit, the coverage mask is 0 on the pixels that some circle of the
    whole list covers and 1 on the others, and the chart is still zero on
    the pixels where the mask is 1: line 83 adds the background colour to
    untouched pixels only. *)
Theorem reverse_loop_mask (h w : nat) (cs : list circle) :
  wf_circles cs ->
  exists chart mask,
    reverse_loop h w true cs (zeros h w) (zeros h w) (ones_mask h w)
    = Ok (chart, mask)
    /\ forall y x, (y < h)%nat -> (x < w)%nat ->
         match first_cover cs x y with
         | Some c => pix 0%R mask y x = 0%R /\ pix rgb0 chart y x = color c
         | None => pix 0%R mask y x = 1%R /\ pix rgb0 chart y x = rgb0
         end.
Proof.
  intros Hwf.
  assert (Hinv : pixel_inv h w (fun _ _ => rgb0) (fun _ _ => rgb0) (fun _ _ => 1%R)).
  { intros y x _ _. right. now repeat split. }
  destruct (@reverse_loop_pixels h w true cs Hwf _ _ _ Hinv)
    as [f' [m' [Hrun Hpix]]].
  exists (tab h w f'), (tab h w m'). split; [exact Hrun|].
  intros y x Hy Hx. rewrite !pix_tab by assumption.
  destruct (Hpix y x Hy Hx) as [_ P1]. specialize (P1 eq_refl).
  destruct (first_cover cs x y); destruct P1; now split.
Qed.

(** X6. A circle that covers no pixel of the canvas can be removed from the
    list without changing the canvas, in both modes. *)
Theorem invisible_circle_removable (h w : nat) (background_color : rgb)
        (reverse : bool) (cs1 cs2 : list circle) (c : circle) :
  wf_circles (cs1 ++ c :: cs2) ->
  (forall y x, (y < h)%nat -> (x < w)%nat -> covers c x y = false) ->
  exists chart,
    composite h w background_color reverse (cs1 ++ c :: cs2) = Ok chart
    /\ composite h w background_color reverse (cs1 ++ cs2) = Ok chart.
Proof.
  intros Hwf Hout.
  assert (Hwf' : wf_circles (cs1 ++ cs2)).
  { apply wf_circles_app in Hwf. destruct Hwf as [H1 H2].
    apply wf_circles_app. split; [exact H1|]. now inversion H2. }
  unfold composite.
  rewrite (composite_with_tab h w true background_color reverse Hwf).
  rewrite (composite_with_tab h w true background_color reverse Hwf').
  eexists. split; [reflexivity|]. f_equal. apply tab_ext. intros y x Hy Hx.
  unfold expected_pixel, first_cover, last_cover. destruct reverse.
  - now rewrite (find_skip (fun c0 => covers c0 x y) cs1 cs2 c (Hout y x Hy Hx)).
  - rewrite !rev_app_distr. simpl rev. rewrite <- app_assoc. simpl app.
    now rewrite (find_skip (fun c0 => covers c0 x y) (rev cs2) (rev cs1) c
                   (Hout y x Hy Hx)).
Qed.

(** * Further properties of the sampling stage *)

Section SamplingStage.
Variable G : BitGenerator.
Variable S : ColorSampler.

Lemma integers_range (low high size : Z) (st st' : rng G) (l : list Z) :
  integers G low high size st = (Ok l, st') ->
  Forall (fun k => (low <= k < high)%Z) l.
Proof.
  unfold integers.
  destruct (Z.eqb_spec size 0); [intros [= <- _]; constructor|].
  destruct (Z.leb_spec high low) as [|Hlt]; [discriminate|].
  destruct (Z.ltb_spec size 0); [discriminate|].
  pose proof (draws_Forall G (fun k => (low <= k < high)%Z) (Z.to_nat size)
                (fun s => let (k, s') := next_bounded G (high - low) s in
                          ((low + k)%Z, s'))) as Hd.
  assert (Hone : forall s,
             (low <= fst (let (k, s') := next_bounded G (high - low) s in
                          ((low + k)%Z, s')) < high)%Z).
  { intros s. pose proof (@next_bounded_range G (high - low) s ltac:(lia)) as Hk.
    destruct (next_bounded G (high - low) s) as [k s']. simpl in *. lia. }
  specialize (Hd Hone st).
  destruct (draws G (Z.to_nat size) _ st) as [l0 s0].
  intros Heq. inversion Heq; subst. exact Hd.
Qed.

Lemma uniform_errors (low high : R) (size : Z) (st st' : rng G) (e : exn) :
  uniform G low high size st = (Raise e, st') -> e = ValueError.
Proof.
  unfold uniform.
  destruct (Rlt_dec (high - low) 0); [now intros [= <- _]|].
  destruct (Z.ltb_spec size 0); [now intros [= <- _]|].
  destruct (draws G (Z.to_nat size) _ st). discriminate.
Qed.

Lemma zip_circles_centres (P Q : Z -> Prop) (cx cy r : list Z) (col : list rgb) :
  Forall P cx -> Forall Q cy ->
  Forall (fun c => P (center_x c) /\ Q (center_y c)) (zip_circles cx cy r col).
Proof.
  intros Hx. revert cy r col.
  induction Hx as [|x cx Hx0 _ IH]; intros cy r col Hy; [constructor|].
  destruct Hy as [|y cy Hy0 Hy]; [constructor|].
  destruct r as [|k r], col as [|c col]; try constructor.
  - simpl. now split.
  - now apply IH.
Qed.

Lemma zip_circles_color_prop (P : rgb -> Prop) (cx cy r : list Z)
      (col : list rgb) :
  Forall P col -> Forall (fun c => P (color c)) (zip_circles cx cy r col).
Proof.
  intros Hc. revert cx cy r.
  induction Hc as [|c col Hc0 _ IH]; intros cx cy r.
  - destruct cx, cy, r; constructor.
  - destruct cx as [|x cx], cy as [|y cy], r as [|k r]; try constructor.
    + exact Hc0.
    + apply IH.
Qed.

(** X7. Every circle of a successful sampling stage is centred on a pixel
    of the canvas: [0 <= center_x < width] and [0 <= center_y < height]
    (lines 50-51). *)
Theorem centres_inside_canvas (size : Z * Z) (number_of_circles : Z)
        (colored : bool) (rmin rmax alpha : R) (st : rng G) :
  match sample_circles G S size number_of_circles colored rmin rmax alpha st
  with
  | (Ok a, _) =>
      Forall (fun c => (0 <= center_x c < snd size)%Z
                       /\ (0 <= center_y c < fst size)%Z) (circles_of a)
  | (Raise _, _) => True
  end.
Proof.
  unfold sample_circles, sample_geometry, bind, ret.
  set (n := default_count size number_of_circles).
  destruct (integers G 0 (snd size) n st) as [[cx|] s1] eqn:Hx; [|exact I].
  destruct (integers G 0 (fst size) n s1) as [[cy|] s2] eqn:Hy; [|exact I].
  destruct (sample_radius G n (default_radius rmin 1) (default_radius rmax 2000)
                          alpha s2) as [[r|] s3]; [|exact I].
  destruct (sample_color G S colored n s3) as [[col|] s4]; [|exact I].
  simpl circles_of. apply integers_range in Hx. apply integers_range in Hy.
  exact (@zip_circles_centres (fun k => (0 <= k < snd size)%Z)
           (fun k => (0 <= k < fst size)%Z) cx cy r col Hx Hy).
Qed.

(** X8. A successful sampling stage yields exactly [N] circles, where [N]
    is [number_of_circles] when it is not negative and
    [30 * max(height, width)] otherwise: the four arrays have [N] entries
    each, so the loops of lines 75 and 86 index them without a miss. *)
Theorem circle_count (size : Z * Z) (number_of_circles : Z)
        (colored : bool) (rmin rmax alpha : R) (st : rng G) :
  match sample_circles G S size number_of_circles colored rmin rmax alpha st
  with
  | (Ok a, _) =>
      let N := if (number_of_circles <? 0)%Z
               then (30 * Z.max (fst size) (snd size))%Z
               else number_of_circles in
      (0 <= N)%Z /\ length (circles_of a) = Z.to_nat N
  | (Raise _, _) => True
  end.
Proof.
  destruct (sample_circles G S size number_of_circles colored rmin rmax alpha st)
    as [[a|e] st'] eqn:Hrun; [|exact I].
  pose proof (@sample_circles_count G S _ _ _ _ _ _ _ _ _ Hrun) as Hn.
  apply sample_circles_inv in Hrun. destruct Hrun as [_ [_ [_ [_ Hlen]]]].
  cbv zeta. fold (default_count size number_of_circles). now split.
Qed.

Lemma sample_color_gray (n : Z) (st st' : rng G) (col : list rgb) :
  sample_color G S false n st = (Ok col, st') ->
  Forall (fun c => exists v, c = (v, v, v) /\ (25 / 100 <= v <= 75 / 100)%R) col.
Proof.
  unfold sample_color, bind, ret.
  destruct (uniform G (25 / 100) (75 / 100) n st) as [[us|] s] eqn:Hu;
    [|discriminate].
  intros Heq. inversion Heq; subst.
  apply uniform_inv in Hu. destruct Hu as [Hle [_ [-> _]]].
  apply Forall_map.
  eapply Forall_impl; [|apply (uniform_variates_range G n st Hle)].
  intros u Hu. now exists u.
Qed.

Lemma sample_circles_gray (size : Z * Z) (number_of_circles : Z)
      (rmin rmax alpha : R) (st st' : rng G)
      (a : list Z * list Z * list Z * list rgb) :
  sample_circles G S size number_of_circles false rmin rmax alpha st
  = (Ok a, st') ->
  Forall (fun c => exists v, color c = (v, v, v)
                             /\ (25 / 100 <= v <= 75 / 100)%R) (circles_of a).
Proof.
  unfold sample_circles, sample_geometry, bind, ret.
  set (n := default_count size number_of_circles).
  destruct (integers G 0 (snd size) n st) as [[cx|] s1]; [|discriminate].
  destruct (integers G 0 (fst size) n s1) as [[cy|] s2]; [|discriminate].
  destruct (sample_radius G n (default_radius rmin 1) (default_radius rmax 2000)
                          alpha s2) as [[r|] s3]; [|discriminate].
  destruct (sample_color G S false n s3) as [[col|] s4] eqn:Hc; [|discriminate].
  intros Heq. inversion Heq; subst. simpl circles_of.
  apply sample_color_gray in Hc.
  exact (@zip_circles_color_prop
           (fun c => exists v, c = (v, v, v) /\ (25 / 100 <= v <= 75 / 100)%R)
           cx cy r col Hc).
Qed.

(** X9. In gray mode ([colored = false]) every pixel of the returned buffer
    that some circle covers has a single channel whose value lies in
    [[0.25, 0.75]], in both compositing modes (lines 68-69 and 92-93). *)
Theorem gray_pixels_in_range (size : Z * Z) (number_of_circles : Z)
        (background_color : rgb) (rmin rmax alpha : R) (seed : option Z)
        (reverse : bool) (os_entropy : Z) :
  match sample_circles G S size number_of_circles false rmin rmax alpha
                       (default_rng G (SeedSequence seed os_entropy)) with
  | (Ok a, st) =>
      exists out,
        dead_leaves_chart G S size number_of_circles background_color false
                          rmin rmax alpha seed reverse os_entropy
        = (Ok out, st)
        /\ forall y x,
            (y < Z.to_nat (fst size))%nat -> (x < Z.to_nat (snd size))%nat ->
            (exists c, In c (circles_of a) /\ covers c x y = true) ->
            exists v, pix [] out y x = [v] /\ (25 / 100 <= v <= 75 / 100)%R
  | (Raise _, _) => True
  end.
Proof.
  destruct (sample_circles G S size number_of_circles false rmin rmax alpha
                           (default_rng G (SeedSequence seed os_entropy)))
    as [[a|e] st] eqn:Hrun; [|exact I].
  rewrite (@dead_leaves_chart_returns G S size number_of_circles background_color
             false rmin rmax alpha seed reverse os_entropy a st Hrun).
  apply sample_circles_gray in Hrun. rewrite Forall_forall in Hrun.
  eexists. split; [reflexivity|]. intros y x Hy Hx [c [Hin Hc]].
  rewrite pix_tab by assumption.
  assert (Hfound : exists c', In c' (circles_of a)
                              /\ expected_pixel background_color reverse
                                                (circles_of a) y x = color c').
  { unfold expected_pixel, first_cover, last_cover. destruct reverse.
    - destruct (find_covered (fun c0 => covers c0 x y) (circles_of a) c Hin Hc)
        as [b Hb].
      rewrite Hb. apply find_some in Hb. exists b. now split.
    - destruct (find_covered (fun c0 => covers c0 x y) (rev (circles_of a)) c
                  (proj1 (in_rev _ c) Hin) Hc) as [b Hb].
      rewrite Hb. apply find_some in Hb. exists b. split; [|reflexivity].
      apply in_rev. apply Hb. }
  destruct Hfound as [c' [Hin' ->]].
  destruct (Hrun c' Hin') as [v [-> Hv]].
  exists v. split; [|exact Hv]. simpl.
  rewrite clip01_id by (unfold in01; lra). reflexivity.
Qed.

Lemma sample_circles_errors (size : Z * Z) (number_of_circles : Z)
      (colored : bool) (rmin rmax alpha : R) (st st' : rng G) (e : exn) :
  sample_circles G S size number_of_circles colored rmin rmax alpha st
  = (Raise e, st') ->
  runtime_error e.
Proof.
  unfold sample_circles, sample_geometry, bind, ret.
  set (n := default_count size number_of_circles).
  destruct (integers G 0 (snd size) n st) as [[cx|e1] s1] eqn:Hx.
  2:{ intros [= <- _]. left. exact (proj1 (@integers_errors G _ _ _ _ _ _ Hx)). }
  destruct (integers G 0 (fst size) n s1) as [[cy|e2] s2] eqn:Hy.
  2:{ intros [= <- _]. left. exact (proj1 (@integers_errors G _ _ _ _ _ _ Hy)). }
  destruct (sample_radius G n (default_radius rmin 1) (default_radius rmax 2000)
                          alpha s2) as [[r|e3] s3] eqn:Hr.
  2:{ intros [= <- _].
      apply (@sample_radius_errors G n (default_radius rmin 1)
               (default_radius rmax 2000) alpha s2 s3 e3);
        [apply default_radius_nonneg; lra|apply default_radius_nonneg; lra|exact Hr]. }
  unfold sample_color, bind, ret. destruct colored.
  - unfold integers1.
    destruct (Z.leb_spec (10 ^ 10) 0) as [Hle|_]; [vm_compute in Hle; contradiction|].
    destruct (next_bounded G (10 ^ 10 - 0) s3). discriminate.
  - destruct (uniform G (25 / 100) (75 / 100) n s3) as [[us|e4] s4] eqn:Hu;
      [discriminate|].
    intros [= <- _]. left. exact (uniform_errors _ _ _ _ Hu).
Qed.

End SamplingStage.

Section RadiusEdges.
Variable G : BitGenerator.
Variable S : ColorSampler.
Local Open Scope R_scope.





End RadiusEdges.

(** * The inference script ([rstor/analyzis/interactive_inference.py]) *)

From Stdlib Require String.

Module Inference.
Import String.
Local Open Scope string_scope.

Inductive py_exn : Type :=
| KeyError (key : string)   (* a missing dictionary key *)
| IndexError                (* a tensor dimension out of range *)
| RuntimeError              (* torch argument checks *)
| ModelError.               (* raised while loading or running a model *)

Inductive outcome (A : Type) : Type :=
| Done (a : A)
| Fail (e : py_exn).

Arguments Done {A} a.
Arguments Fail {A} e.

Definition obind {A B} (o : outcome A) (k : A -> outcome B) : outcome B :=
  match o with
  | Done a => k a
  | Fail e => Fail e
  end.

(** ** Arrays and tensors *)

(** A numpy array or a torch tensor: its shape and its entries by index.
    [torch.from_numpy], [.float()], [.to(DEVICE)], [.cpu()], [.numpy()] and
    [np.ascontiguousarray] keep both. *)
Record tensor : Type := {
  shape : list nat;
  item : list nat -> R
}.

Definition ndim (t : tensor) : nat := List.length (shape t).

(** A dimension argument, counted from the end when negative. *)
Definition normalize_dim (n : nat) (d : Z) : option nat :=
  if ((0 <=? d) && (d <? Z.of_nat n))%Z then Some (Z.to_nat d)
  else if ((- Z.of_nat n <=? d) && (d <? 0))%Z then Some (Z.to_nat (d + Z.of_nat n))
  else None.

Fixpoint normalize_dims (n : nat) (dims : list Z) : option (list nat) :=
  match dims with
  | [] => Some []
  | d :: dims' =>
      match normalize_dim n d, normalize_dims n dims' with
      | Some k, Some ks => Some (k :: ks)
      | _, _ => None
      end
  end.

Fixpoint distinct (l : list nat) : bool :=
  match l with
  | [] => true
  | a :: l' => negb (existsb (Nat.eqb a) l') && distinct l'
  end.

(** The position of dimension [d] in the ordering [ds]. *)
Fixpoint position (d : nat) (ds : list nat) : nat :=
  match ds with
  | [] => O
  | a :: ds' => if Nat.eqb d a then O else Datatypes.S (position d ds')
  end.

(** [t.permute(dims)]: dimension [i] of the result is dimension [dims[i]]
    of [t]; the ordering must list every dimension of [t] once. *)
Definition permute (t : tensor) (dims : list Z) : outcome tensor :=
  if negb (Nat.eqb (List.length dims) (ndim t)) then Fail RuntimeError
  else
    match normalize_dims (ndim t) dims with
    | None => Fail IndexError
    | Some ds =>
        if distinct ds then
          Done {| shape := map (fun d => nth d (shape t) O) ds;
                  item := fun idx =>
                            item t (map (fun j => nth (position j ds) idx O)
                                        (seq 0 (ndim t))) |}
        else Fail RuntimeError
    end.

(** [t.unsqueeze(0)] *)
Definition unsqueeze0 (t : tensor) : tensor :=
  {| shape := 1%nat :: shape t;
     item := fun idx => item t (tl idx) |}.

(** The index into the unsqueezed tensor: 0 at every extent equal to 1. *)
Fixpoint expand_index (sh : list nat) (idx : list nat) : list nat :=
  match sh with
  | [] => []
  | n :: sh' =>
      if Nat.eqb n 1 then O :: expand_index sh' idx
      else match idx with
           | i :: idx' => i :: expand_index sh' idx'
           | [] => O :: expand_index sh' []
           end
  end.

(** [t.squeeze()]: every dimension of extent 1 is removed. *)
Definition squeeze (t : tensor) : tensor :=
  {| shape := filter (fun n => negb (Nat.eqb n 1)) (shape t);
     item := fun idx => item t (expand_index (shape t) idx) |}.

(** ** [infer] (lines 14-20) *)

(** The tensor handed to the model (line 15). *)
Definition model_input (degraded : tensor) : outcome tensor :=
  obind (permute degraded [-1; 0; 1]%Z) (fun p => Done (unsqueeze0 p)).

(** [model] stands for the call of the network in evaluation mode. *)
Definition infer (degraded : tensor) (model : tensor -> outcome tensor)
  : outcome tensor :=
  obind (model_input degraded) (fun degraded_tensor =>
  obind (model degraded_tensor) (fun output =>
  permute (squeeze output) [1; 2; 0]%Z)).

(** ** [model_selector] and the dictionary of [main] (lines 31-54) *)

Section Models.
Variable model : Type.

(** [get_experiment_config], [get_training_content] and the checkpoint read
    by [torch.load] are not among the sources: [load_model exp] is a
    parameter that stands for lines 49-52 on experiment [exp]. *)
Variable load_model : Z -> outcome model.

(** A Python dictionary with string keys; the first binding of a key is the
    current one. *)
Definition dict : Type := list (string * model).

Definition dict_set (d : dict) (k : string) (v : model) : dict := (k, v) :: d.

Fixpoint dict_get (d : dict) (k : string) : outcome model :=
  match d with
  | [] => Fail (KeyError k)
  | (k', v) :: d' => if String.eqb k k' then Done v else dict_get d' k
  end.

(** [models_dict[model_name]] *)
Definition model_selector (models_dict : dict) (model_name : string)
  : outcome model :=
  dict_get models_dict model_name.

(** The names that the selector widget offers (line 32). *)
Definition model_names : list string := ["vanilla"; "unittest"; "NAFNET"].

(** The loop of lines 48-53. *)
Fixpoint load_models (exps : list (Z * string)) (model_dict : dict)
  : outcome dict :=
  match exps with
  | [] => Done model_dict
  | (exp, name) :: rest =>
      obind (load_model exp) (fun m =>
      load_models rest (dict_set model_dict name m))
  end.

(** The dictionary that [main] hands to the pipeline. *)
Definition main_models : outcome dict :=
  load_models [(1000%Z, "vanilla"); ((-1)%Z, "unittest")] [].

End Models.

End Inference.

(** ** Properties of the inference script *)

Module InferenceFacts.
Import String Inference.
Local Open Scope string_scope.

Lemma model_input_of_image (degraded : tensor) (H W C : nat) :
  shape degraded = [H; W; C] ->
  model_input degraded
  = Done (unsqueeze0
            {| shape := [C; H; W];
               item := fun idx =>
                         item degraded [nth 1 idx O; nth 2 idx O; nth 0 idx O] |}).
Proof.
  intros Hs. unfold model_input, permute, ndim. rewrite Hs. reflexivity.
Qed.

(** X13. [infer] hands the model a batch of one image in channel-first
    layout: for an array of shape (H, W, C) the model input has shape
    (1, C, H, W) and its entry (0, c, i, j) is entry (i, j, c) of the
    array (line 15). *)
Theorem model_input_layout (degraded : tensor) (H W C : nat) :
  shape degraded = [H; W; C] ->
  exists x,
    model_input degraded = Done x
    /\ shape x = [1; C; H; W]%nat
    /\ forall c i j, item x [O; c; i; j] = item degraded [i; j; c].
Proof.
  intros Hs. rewrite (model_input_of_image degraded Hs).
  eexists. split; [reflexivity|]. split; reflexivity.
Qed.

(** X14. When the model maps the (1, C, H, W) input to a (1, C', H', W')
    output none of whose extents C', H', W' is 1, [infer] returns an array
    of shape (H', W', C') whose entry (i, j, c) is entry (0, c, i, j) of the
    model output (line 19). *)
Theorem infer_output_layout (degraded : tensor)
        (model : tensor -> outcome tensor) (H W C C' H' W' : nat) :
  shape degraded = [H; W; C] ->
  (forall x, shape x = [1; C; H; W]%nat ->
             exists y, model x = Done y /\ shape y = [1; C'; H'; W']%nat) ->
  C' <> 1%nat -> H' <> 1%nat -> W' <> 1%nat ->
  exists x y out,
    model_input degraded = Done x
    /\ model x = Done y
    /\ infer degraded model = Done out
    /\ shape out = [H'; W'; C']
    /\ forall i j c, item out [i; j; c] = item y [O; c; i; j].
Proof.
  intros Hs Hmodel HC HH HW.
  pose proof (model_input_of_image degraded Hs) as Hx.
  set (x := unsqueeze0
              {| shape := [C; H; W];
                 item := fun idx =>
                           item degraded [nth 1 idx O; nth 2 idx O; nth 0 idx O] |})
    in Hx.
  assert (Hsx : shape x = [1; C; H; W]%nat) by reflexivity.
  destruct (Hmodel x Hsx) as [y [Hy Hsy]].
  exists x, y. unfold infer. rewrite Hx. cbn [obind]. rewrite Hy. cbn [obind].
  unfold permute, squeeze, ndim. cbn [shape item]. rewrite Hsy.
  cbn [filter Nat.eqb negb].
  apply Nat.eqb_neq in HC, HH, HW. rewrite HC, HH, HW. cbn.
  eexists. split; [reflexivity|]. split; [reflexivity|].
  split; [reflexivity|]. split; [reflexivity|].
  intros i j c. cbn. rewrite HC, HH, HW. reflexivity.
Qed.

(** X15. When an extent C', H' or W' of the (1, C', H', W') model output is
    1, as for a one-channel (gray) image, [squeeze()] drops that dimension
    too and the [permute(1, 2, 0)] of line 19 raises [RuntimeError]. *)
Theorem infer_fails_on_unit_extent (degraded : tensor)
        (model : tensor -> outcome tensor) (H W C C' H' W' : nat) :
  shape degraded = [H; W; C] ->
  (forall x, shape x = [1; C; H; W]%nat ->
             exists y, model x = Done y /\ shape y = [1; C'; H'; W']%nat) ->
  C' = 1%nat \/ H' = 1%nat \/ W' = 1%nat ->
  infer degraded model = Fail RuntimeError.
Proof.
  intros Hs Hmodel Hone.
  pose proof (model_input_of_image degraded Hs) as Hx.
  set (x := unsqueeze0
              {| shape := [C; H; W];
                 item := fun idx =>
                           item degraded [nth 1 idx O; nth 2 idx O; nth 0 idx O] |})
    in Hx.
  assert (Hsx : shape x = [1; C; H; W]%nat) by reflexivity.
  destruct (Hmodel x Hsx) as [y [Hy Hsy]].
  unfold infer. rewrite Hx. cbn [obind]. rewrite Hy. cbn [obind].
  unfold permute, squeeze, ndim. cbn [shape item]. rewrite Hsy.
  cbn [filter Nat.eqb negb].
  destruct (Nat.eqb_spec C' 1) as [EC|NC];
    destruct (Nat.eqb_spec H' 1) as [EH|NH];
    destruct (Nat.eqb_spec W' 1) as [EW|NW];
    try reflexivity.
  exfalso. destruct Hone as [?|[?|?]]; contradiction.
Qed.

(** X16. An array that does not have exactly three dimensions is rejected
    by the [permute(-1, 0, 1)] of line 15 before the model is called. *)
Theorem infer_needs_three_dimensions (degraded : tensor)
        (model : tensor -> outcome tensor) :
  ndim degraded <> 3%nat ->
  infer degraded model = Fail RuntimeError.
Proof.
  intros Hn. unfold infer, model_input, permute. cbn [List.length].
  apply Nat.eqb_neq in Hn. rewrite Nat.eqb_sym in Hn. rewrite Hn. reflexivity.
Qed.

(** X17. Once the loop of [main] has loaded its two experiments, the
    selector returns the model of experiment 1000 for "vanilla" (the
    default) and the model of experiment -1 for "unittest", and raises
    [KeyError] for "NAFNET", the third name that the widget of line 32
    offers. *)
Theorem selector_on_main_models (model : Type) (load_model : Z -> outcome model) :
  match main_models load_model with
  | Done d =>
      model_selector d "vanilla" = load_model 1000%Z
      /\ model_selector d "unittest" = load_model (-1)%Z
      /\ model_selector d "NAFNET" = Fail (KeyError "NAFNET")
      /\ In "NAFNET" model_names
  | Fail _ => True
  end.
Proof.
  unfold main_models. cbn [load_models].
  destruct (load_model 1000%Z) as [m1|e1]; cbn [obind]; [|exact I].
  destruct (load_model (-1)%Z) as [m2|e2]; cbn [obind]; [|exact I].
  repeat split. unfold model_names. right. right. now left.
Qed.

End InferenceFacts.

(** * Instances of the further properties *)

(** Two circles of radius 0 on distinct pixels. *)
Definition apart_circles : list circle :=
  [ {| center_x := 0; center_y := 0; radius := 0; color := red |};
    {| center_x := 1; center_y := 1; radius := 0; color := blue |} ].

(** A circle far outside a 2 x 2 canvas. *)
Definition far_circle : circle :=
  {| center_x := 10; center_y := 10; radius := 1; color := blue |}.

Lemma two_circles_wf : wf_circles two_circles.
Proof. unfold two_circles, wf_circles. repeat constructor; simpl; lia. Qed.

Lemma apart_circles_wf : wf_circles apart_circles.
Proof. unfold apart_circles, wf_circles. repeat constructor; simpl; lia. Qed.

Lemma with_far_circle_wf : wf_circles ([] ++ far_circle :: two_circles).
Proof.
  unfold two_circles, far_circle, wf_circles. repeat constructor; simpl; lia.
Qed.

Lemma reverse_mode_is_forward_on_reversed_witness :
  wf_circles two_circles
  /\ exists chart,
      composite 2 2 gray true two_circles = Ok chart
      /\ composite 2 2 gray false (rev two_circles) = Ok chart.
Proof.
  split; [exact two_circles_wf|].
  exact (@reverse_mode_is_forward_on_reversed 2 2 gray two_circles two_circles_wf).
Defined.

Lemma apart_circles_no_conflict :
  forall y x, (y < 2)%nat -> (x < 2)%nat ->
    forall c1 c2, In c1 apart_circles -> In c2 apart_circles ->
      covers c1 x y = true -> covers c2 x y = true -> color c1 = color c2.
Proof.
  intros y x Hy Hx c1 c2 I1 I2 C1 C2.
  destruct y as [|[|y]]; [| |lia]; (destruct x as [|[|x]]; [| |lia]);
    simpl in I1, I2;
    destruct I1 as [<-|[<-|[]]]; destruct I2 as [<-|[<-|[]]];
    try reflexivity; vm_compute in C1; vm_compute in C2; discriminate.
Qed.

Lemma modes_agree_without_conflict_witness :
  wf_circles apart_circles
  /\ (forall y x, (y < 2)%nat -> (x < 2)%nat ->
        forall c1 c2, In c1 apart_circles -> In c2 apart_circles ->
          covers c1 x y = true -> covers c2 x y = true -> color c1 = color c2)
  /\ exists chart,
      composite 2 2 gray true apart_circles = Ok chart
      /\ composite 2 2 gray false apart_circles = Ok chart.
Proof.
  split; [exact apart_circles_wf|]. split; [exact apart_circles_no_conflict|].
  exact (@modes_agree_without_conflict 2 2 gray apart_circles apart_circles_wf
           apart_circles_no_conflict).
Defined.

Lemma reverse_prefix_decides_witness :
  wf_circles (apart_circles ++ two_circles)
  /\ exists chart1 chart12,
      composite 2 2 gray true apart_circles = Ok chart1
      /\ composite 2 2 gray true (apart_circles ++ two_circles) = Ok chart12
      /\ (forall y x, (y < 2)%nat -> (x < 2)%nat ->
            (exists c, In c apart_circles /\ covers c x y = true) ->
            pix rgb0 chart12 y x = pix rgb0 chart1 y x)
      /\ ((forall y x, (y < 2)%nat -> (x < 2)%nat ->
             exists c, In c apart_circles /\ covers c x y = true) ->
          chart12 = chart1).
Proof.
  assert (Hwf : wf_circles (apart_circles ++ two_circles)).
  { apply wf_circles_app. split; [exact apart_circles_wf|exact two_circles_wf]. }
  split; [exact Hwf|].
  exact (@reverse_prefix_decides 2 2 gray apart_circles two_circles Hwf).
Defined.

Lemma forward_suffix_decides_witness :
  wf_circles (two_circles ++ apart_circles)
  /\ exists chart2 chart12,
      composite 2 2 gray false apart_circles = Ok chart2
      /\ composite 2 2 gray false (two_circles ++ apart_circles) = Ok chart12
      /\ (forall y x, (y < 2)%nat -> (x < 2)%nat ->
            (exists c, In c apart_circles /\ covers c x y = true) ->
            pix rgb0 chart12 y x = pix rgb0 chart2 y x)
      /\ ((forall y x, (y < 2)%nat -> (x < 2)%nat ->
             exists c, In c apart_circles /\ covers c x y = true) ->
          chart12 = chart2).
Proof.
  assert (Hwf : wf_circles (two_circles ++ apart_circles)).
  { apply wf_circles_app. split; [exact two_circles_wf|exact apart_circles_wf]. }
  split; [exact Hwf|].
  exact (@forward_suffix_decides 2 2 gray two_circles apart_circles Hwf).
Defined.

Lemma reverse_loop_mask_witness :
  wf_circles apart_circles
  /\ exists chart mask,
      reverse_loop 2 2 true apart_circles (zeros 2 2) (zeros 2 2) (ones_mask 2 2)
      = Ok (chart, mask)
      /\ forall y x, (y < 2)%nat -> (x < 2)%nat ->
           match first_cover apart_circles x y with
           | Some c => pix 0%R mask y x = 0%R /\ pix rgb0 chart y x = color c
           | None => pix 0%R mask y x = 1%R /\ pix rgb0 chart y x = rgb0
           end.
Proof.
  split; [exact apart_circles_wf|].
  exact (@reverse_loop_mask 2 2 apart_circles apart_circles_wf).
Defined.

Lemma far_circle_invisible :
  forall y x, (y < 2)%nat -> (x < 2)%nat -> covers far_circle x y = false.
Proof.
  intros y x Hy Hx.
  destruct y as [|[|y]]; [| |lia]; (destruct x as [|[|x]]; [| |lia]);
    reflexivity.
Qed.

Lemma invisible_circle_removable_witness :
  wf_circles ([] ++ far_circle :: two_circles)
  /\ (forall y x, (y < 2)%nat -> (x < 2)%nat -> covers far_circle x y = false)
  /\ exists chart,
      composite 2 2 gray true ([] ++ far_circle :: two_circles) = Ok chart
      /\ composite 2 2 gray true ([] ++ two_circles) = Ok chart.
Proof.
  split; [exact with_far_circle_wf|]. split; [exact far_circle_invisible|].
  exact (@invisible_circle_removable 2 2 gray true [] two_circles far_circle
           with_far_circle_wf far_circle_invisible).
Defined.



Module InferenceInstances.
Import Inference InferenceFacts.

(** A 2 x 2 image with three channels, and one with a single channel. *)
Definition rgb_image : tensor :=
  {| shape := [2; 2; 3]%nat; item := fun _ => 0%R |}.

Definition gray_image : tensor :=
  {| shape := [2; 2; 1]%nat; item := fun _ => 0%R |}.

Definition flat_image : tensor :=
  {| shape := [2; 2]%nat; item := fun _ => 0%R |}.

(** A model that returns its input. *)
Definition identity_model (x : tensor) : outcome tensor := Done x.

Lemma identity_model_shape (sh : list nat) :
  forall x, shape x = sh ->
            exists y, identity_model x = Done y /\ shape y = sh.
Proof. intros x Hx. exists x. split; [reflexivity|exact Hx]. Qed.

Lemma model_input_layout_witness :
  shape rgb_image = [2; 2; 3]%nat
  /\ exists x,
      model_input rgb_image = Done x
      /\ shape x = [1; 3; 2; 2]%nat
      /\ forall c i j, item x [O; c; i; j] = item rgb_image [i; j; c].
Proof.
  split; [reflexivity|].
  exact (@model_input_layout rgb_image 2 2 3 eq_refl).
Defined.

Lemma infer_output_layout_witness :
  shape rgb_image = [2; 2; 3]%nat
  /\ (forall x, shape x = [1; 3; 2; 2]%nat ->
                exists y, identity_model x = Done y /\ shape y = [1; 3; 2; 2]%nat)
  /\ 3%nat <> 1%nat /\ 2%nat <> 1%nat /\ 2%nat <> 1%nat
  /\ exists x y out,
      model_input rgb_image = Done x
      /\ identity_model x = Done y
      /\ infer rgb_image identity_model = Done out
      /\ shape out = [2; 2; 3]%nat
      /\ forall i j c, item out [i; j; c] = item y [O; c; i; j].
Proof.
  assert (H3 : 3%nat <> 1%nat) by discriminate.
  assert (H2 : 2%nat <> 1%nat) by discriminate.
  split; [reflexivity|]. split; [exact (@identity_model_shape [1; 3; 2; 2]%nat)|].
  split; [exact H3|]. split; [exact H2|]. split; [exact H2|].
  exact (@infer_output_layout rgb_image identity_model 2 2 3 3 2 2 eq_refl
           (@identity_model_shape [1; 3; 2; 2]%nat) H3 H2 H2).
Defined.

Lemma infer_fails_on_unit_extent_witness :
  shape gray_image = [2; 2; 1]%nat
  /\ (forall x, shape x = [1; 1; 2; 2]%nat ->
                exists y, identity_model x = Done y /\ shape y = [1; 1; 2; 2]%nat)
  /\ (1%nat = 1%nat \/ 2%nat = 1%nat \/ 2%nat = 1%nat)
  /\ infer gray_image identity_model = Fail RuntimeError.
Proof.
  split; [reflexivity|]. split; [exact (@identity_model_shape [1; 1; 2; 2]%nat)|].
  split; [left; reflexivity|].
  exact (@infer_fails_on_unit_extent gray_image identity_model 2 2 1 1 2 2 eq_refl
           (@identity_model_shape [1; 1; 2; 2]%nat) (or_introl eq_refl)).
Defined.

Lemma infer_needs_three_dimensions_witness :
  ndim flat_image <> 3%nat
  /\ infer flat_image identity_model = Fail RuntimeError.
Proof.
  assert (H : ndim flat_image <> 3%nat) by discriminate.
  split; [exact H|].
  exact (@infer_needs_three_dimensions flat_image identity_model H).
Defined.

End InferenceInstances.

(** * The background colour outside the unit interval *)

(** X18. Whatever the background colour, a pixel that no circle covers holds
    the background colour clipped to the unit interval channel by channel,
    and a covered pixel holds its circle's colour unchanged (line 90 clips
    the whole chart; the sampled colours already lie in the unit
    interval). *)
Theorem background_is_clipped (G : BitGenerator) (S : ColorSampler)
        (size : Z * Z) (number_of_circles : Z) (background_color : rgb)
        (colored : bool) (rmin rmax alpha : R) (seed : option Z)
        (reverse : bool) (os_entropy : Z) :
  match sample_circles G S size number_of_circles colored rmin rmax alpha
                       (default_rng G (SeedSequence seed os_entropy)) with
  | (Ok a, st) =>
      exists out,
        dead_leaves_chart G S size number_of_circles background_color colored
                          rmin rmax alpha seed reverse os_entropy
        = (Ok out, st)
        /\ forall y x,
            (y < Z.to_nat (fst size))%nat -> (x < Z.to_nat (snd size))%nat ->
            pix [] out y x
            = channels colored
                (match (if reverse then first_cover (circles_of a) x y
                        else last_cover (circles_of a) x y) with
                 | Some c => color c
                 | None => rgb_clip background_color
                 end)
  | (Raise _, _) => True
  end.
Proof.
  destruct (sample_circles G S size number_of_circles colored rmin rmax alpha
                           (default_rng G (SeedSequence seed os_entropy)))
    as [[a|e] st] eqn:Hrun; [|exact I].
  rewrite (@dead_leaves_chart_returns G S size number_of_circles background_color
             colored rmin rmax alpha seed reverse os_entropy a st Hrun).
  apply sample_circles_inv in Hrun. destruct Hrun as [_ [_ [_ [Hcol _]]]].
  rewrite Forall_forall in Hcol.
  eexists. split; [reflexivity|]. intros y x Hy Hx.
  rewrite pix_tab by assumption. f_equal.
  unfold expected_pixel, first_cover, last_cover. destruct reverse.
  - destruct (find (fun c => covers c x y) (circles_of a)) as [c|] eqn:Hf;
      [|reflexivity].
    apply find_some in Hf. apply rgb_clip_id, Hcol, Hf.
  - destruct (find (fun c => covers c x y) (rev (circles_of a))) as [c|] eqn:Hf;
      [|reflexivity].
    apply find_some in Hf. apply rgb_clip_id, Hcol, in_rev, Hf.
Qed.

(** * The radius law in binary64 arithmetic *)

From Stdlib Require PrimFloat.

Module Binary64.
Import PrimFloat.
Local Open Scope float_scope.

Section Power.

(** The power function behind [float.__pow__] and [ndarray.__pow__] belongs
    to the C library and to numpy; it is a parameter here. *)
Variable pow : float -> float -> float.


End Power.





End Binary64.
